(** * PowerSaving: the Score plugin of pkg/trimaran/powersaving

    A shallow embedding of [pkg/trimaran/powersaving/powersaving.go] and the
    properties of its scoring core.

    - Go's [int64] is a [Z] in the 64-bit two's-complement range; arithmetic
      that can leave the range goes through [Int64.wrap].
    - Go's [float64] is Rocq's primitive [float] (IEEE 754 binary64, round to
      nearest even), so every floating-point step below is the bit-exact
      operation the Go program performs on a platform that does not fuse
      multiply-add.  The conversions between [int64] and [float64] and
      [math.Round] follow the Go specification and the documentation of
      package [math] ([Float64]).
    - Go maps ([v1.ResourceList], the scheduled-pods cache) are [gmap]s.
    - Package-level variables are the fields of [powersaving.Globals] and are
      passed explicitly. *)

From Stdlib Require Import ZArith Lia Bool Floats.
From stdpp Require Import base option list gmap strings.

Local Open Scope Z_scope.

(** ** 64-bit signed integers *)

Module Int64.

Definition min_int : Z := - 2 ^ 63.
Definition max_int : Z := 2 ^ 63 - 1.

Definition in_range (z : Z) : Prop := min_int <= z <= max_int.

Definition in_rangeb (z : Z) : bool := (min_int <=? z) && (z <=? max_int).

(** Two's-complement wrap-around of a mathematical integer. *)
Definition wrap (z : Z) : Z := (z + 2 ^ 63) mod 2 ^ 64 - 2 ^ 63.

Definition add (a b : Z) : Z := wrap (a + b).
Definition sub (a b : Z) : Z := wrap (a - b).

End Int64.

(** ** The binary64 format

    Definitions used to reason about doubles through their exact values. *)

Module Binary64.

(** The value of a double in units of [2^-1074], the smallest positive
    double: every finite double is an integer number of units. *)
Definition unit_exp : Z := 1074.

Definition top : Z := 2 ^ 2098.

Definition xval (x : spec_float) : Z :=
  match x with
  | S754_zero _ => 0
  | S754_infinity s => cond_Zopp s top
  | S754_nan => 0
  | S754_finite s m e => cond_Zopp s (Z.pos m * 2 ^ (e + unit_exp))
  end.

Definition is_nan_SF (x : spec_float) : bool :=
  match x with S754_nan => true | _ => false end.

Definition is_finite_SF (x : spec_float) : bool :=
  match x with S754_zero _ | S754_finite _ _ _ => true | _ => false end.

(** [v / 2^k] rounded to the nearest integer, ties to even. *)
Definition rne_div (v k : Z) : Z :=
  let q := v / 2 ^ k in
  let r := v mod 2 ^ k in
  match 2 * r ?= 2 ^ k with
  | Lt => q
  | Eq => if Z.even q then q else q + 1
  | Gt => q + 1
  end.

(** Number of binary digits of a non-negative integer. *)
Definition digits (v : Z) : Z := Zdigits2 v.

(** Rounding of a non-negative number of units to 53 significant bits. *)
Definition RN (v : Z) : Z :=
  if digits v <=? 53 then v
  else rne_div v (digits v - 53) * 2 ^ (digits v - 53).

Definition sRN (v : Z) : Z :=
  if v <? 0 then - RN (- v) else RN v.

Definition ovf (v : Z) : Z := Z.max (- top) (Z.min top v).

(** What [binary_round] may return for a rounded magnitude of [w] units. *)
Definition rounds_to (s : bool) (w : Z) (r : spec_float) : Prop :=
  valid_binary r = true
  /\ ((r = S754_infinity s /\ top <= w)
      \/ (exists m e, r = S754_finite s m e
                      /\ Z.pos m * 2 ^ (e + unit_exp) = w /\ w < top)).

End Binary64.

(** ** Binary64 arithmetic used by the plugin *)

Module Float64.

Import Binary64.

(** [float64(i)] for an [int64] [i]: the nearest double, ties to even. *)
Definition of_int64 (z : Z) : float :=
  SF2Prim (binary_normalize prec emax z 0 false).

(** The integer nearest to [m * 2^e] for [e < 0], halves going up (this is
    the magnitude; the sign is applied by the caller, so halves go away from
    zero). *)
Definition half_away (m : positive) (e : Z) : Z :=
  (Z.pos m + 2 ^ (- e - 1)) / 2 ^ (- e).

(** [math.Round]: the nearest integer, rounding half away from zero;
    [Round(±0) = ±0], [Round(±Inf) = ±Inf], [Round(NaN) = NaN].  A double
    whose exponent is not negative is already an integer. *)
Definition Round (x : float) : float :=
  match Prim2SF x with
  | S754_finite s m e =>
      if 0 <=? e then x
      else SF2Prim (binary_normalize prec emax
                      (cond_Zopp s (half_away m e)) 0 s)
  | _ => x
  end.

(** The value the amd64 conversion instruction yields when the operand is
    NaN, infinite or outside the [int64] range (Go leaves this case to the
    implementation). *)
Definition indefinite : Z := Int64.min_int.

(** The integer part of [m * 2^e], truncated toward zero. *)
Definition trunc (m : positive) (e : Z) : Z :=
  if 0 <=? e then Z.pos m * 2 ^ e else Z.pos m / 2 ^ (- e).

(** [int64(x)] for a [float64] [x]: truncation toward zero. *)
Definition to_int64 (x : float) : Z :=
  match Prim2SF x with
  | S754_zero _ => 0
  | S754_finite s m e =>
      let q := cond_Zopp s (trunc m e) in
      if Int64.in_rangeb q then q else indefinite
  | _ => indefinite
  end.

(** [-2^63 <= x < 2^63]: the integer part of [x] is an [int64]. *)
Definition fits_int64 (x : float) : bool :=
  ((-9223372036854775808)%float <=? x)%float
  && (x <? 9223372036854775808%float)%float.

(** The integers of magnitude up to [2^53]; a double holds each of them
    exactly. *)
Definition exact_int (z : Z) : Prop := - 2 ^ 53 <= z <= 2 ^ 53.

(** The value of a double in units of [2^-1074]; [scale] is the number of
    units in 1. *)
Definition units (x : float) : Z := xval (Prim2SF x).

Definition scale : Z := 2 ^ 1074.

Definition finiteb (x : float) : bool := is_finite_SF (Prim2SF x).

(** The integer nearest to [v] units, halves away from zero. *)
Definition rint (v : Z) : Z :=
  if v <? 0 then - ((- v + 2 ^ 1073) / 2 ^ 1074)
  else (v + 2 ^ 1073) / 2 ^ 1074.

End Float64.

(** ** k8s.io/api/core/v1: the parts of a pod and a node that are read *)

Module v1.

Definition ResourceCPU : string := "cpu".

(** A [resource.Quantity], known here through [MilliValue()]. *)
Record Quantity := { MilliValue : Z }.

(** [ResourceList.Cpu()]: the entry for "cpu", or the zero quantity. *)
Definition Cpu (rl : gmap string Quantity) : Quantity :=
  match rl !! ResourceCPU with
  | Some val => val
  | None => {| MilliValue := 0 |}
  end.

Record ResourceRequirements := {
  Limits : gmap string Quantity;
  Requests : gmap string Quantity
}.

Record Container := { Resources : ResourceRequirements }.

Record PodSpec := {
  Containers : list Container;
  Overhead : gmap string Quantity
}.

Record Pod := { Name : string; Spec : PodSpec }.

Record NodeStatus := { Capacity : gmap string Quantity }.

Record Node := { Status : NodeStatus }.

End v1.

(** ** github.com/paypal/load-watcher/pkg/watcher *)

Module watcher.

Definition CPU : string := "CPU".
Definition Memory : string := "Memory".
Definition Average : string := "AVG".
Definition Std : string := "STD".
Definition Latest : string := "Latest".

Record Metric := {
  Type_ : string;
  Operator : string;
  Value : float
}.

Record Window := { Start : Z; End_ : Z }.

Record WatcherMetrics := { window : Window }.

End watcher.

(** ** k8s.io/kubernetes/pkg/scheduler/framework *)

Module framework.

(** Modelled from the spec: [MaxNodeScore] and [MinNodeScore] are constants
    of the scheduler framework, declared outside the sources; the
    specification gives the closed range 0-100 for a score. *)
Definition MaxNodeScore : Z := 100.
Definition MinNodeScore : Z := 0.

Inductive Code := Success | Error.

(** What the message of a status is built from. *)
Inductive Reason :=
  | NoReason
  | GettingNodeFromSnapshot (nodeName err : string).

(** A [*framework.Status]; [nil] is read as success by the framework. *)
Inductive Status :=
  | nil_status
  | NewStatus (code : Code) (reason : Reason).

Definition IsError (s : Status) : bool :=
  match s with
  | NewStatus Error _ => true
  | _ => false
  end.

(** The framework declares [type NodeScore struct { Name string; Score int64 }]
    and [type NodeScoreList []NodeScore]: a score list is a slice of struct
    values, not of pointers, and is modelled as a [list NodeScore]. *)
Record NodeScore := { Name : string; Score : Z }.

Record NodeInfo := { node : v1.Node }.

(** [SnapshotSharedLister().NodeInfos().Get]: the node's info, or an error. *)
Record Handle := { NodeInfos_Get : string -> NodeInfo + string }.

End framework.

(** ** sigs.k8s.io/scheduler-plugins/pkg/trimaran *)

Module trimaran.

Record Time := { Unix : Z }.

Record podInfo := { Timestamp : Time; Pod : v1.Pod }.

Record PodAssignEventHandler := {
  ScheduledPodsCache : gmap string (list podInfo)
}.

(** [trimaran.New()], whose body is outside the sources: a handler whose
    cache holds no record yet. *)
Definition New : PodAssignEventHandler := {| ScheduledPodsCache := ∅ |}.

(** [GetNodeMetrics], whose body is outside the sources, is any function
    from a node name to the node's samples ([None] is the nil slice) and the
    snapshot they come from, which is not nil when the samples are not. *)
Record Collector := {
  GetNodeMetrics : string -> option (list watcher.Metric) * watcher.WatcherMetrics
}.

End trimaran.

(** ** sigs.k8s.io/scheduler-plugins/apis/config *)

Module pluginConfig.

Record TrimaranSpec := { WatcherAddress : string }.

Record PowerSavingArgs := {
  trimaranSpec : TrimaranSpec;
  LowCPUThreshold : Z;
  HighCPUThreshold : Z
}.

End pluginConfig.

(** ** k8s.io/apimachinery/pkg/runtime *)

Module runtime.

(** A [runtime.Object] as far as [New] inspects it: either plugin arguments
    of the expected type or an object of some other type. *)
Inductive Object :=
  | PowerSavingArgsObject (args : pluginConfig.PowerSavingArgs)
  | OtherObject (typeName : string).

End runtime.

(** ** The plugin *)

Module powersaving.

Import Float64.

Definition Name : string := "PowerSaving".

(** Time interval in seconds for each metrics agent ingestion. *)
Definition metricsAgentReportingIntervalSeconds : Z := 60.

(** The package-level variables. *)
Record Globals := {
  requestsMilliCores : Z;
  hostLowCPUThreshold : Z;
  hostHighCPUThreshold : Z;
  requestsMultiplier : float;
  keplerEnabled : bool
}.

(** The values of the [var] block, given the three defaults that
    [apis/config/v1beta2] declares; [requestsMultiplier] has no initialiser,
    so it starts at the zero value. *)
Definition initial (DefaultRequestsMilliCores DefaultLowCPUThreshold
                    DefaultHighCPUThreshold : Z) : Globals :=
  {| requestsMilliCores := DefaultRequestsMilliCores;
     hostLowCPUThreshold := DefaultLowCPUThreshold;
     hostHighCPUThreshold := DefaultHighCPUThreshold;
     requestsMultiplier := 0%float;
     keplerEnabled := false |}.

Record PowerSaving := {
  handle : framework.Handle;
  eventHandler : trimaran.PodAssignEventHandler;
  collector : trimaran.Collector;
  args : pluginConfig.PowerSavingArgs
}.

Inductive NewError :=
  | WantPowerSavingArgs (got : string)
  | CollectorError (err : string).

(** Lines 74-84 of [New]: the thresholds are taken from the arguments and
    repaired. *)
Definition setThresholds (args : pluginConfig.PowerSavingArgs) (g : Globals)
  : Globals :=
  let hostHighCPUThreshold := pluginConfig.HighCPUThreshold args in
  let hostLowCPUThreshold := pluginConfig.LowCPUThreshold args in
  let hostHighCPUThreshold :=
    if hostHighCPUThreshold >? framework.MaxNodeScore
    then framework.MaxNodeScore else hostHighCPUThreshold in
  let hostLowCPUThreshold :=
    if hostLowCPUThreshold <? framework.MinNodeScore
    then framework.MinNodeScore else hostLowCPUThreshold in
  let hostLowCPUThreshold :=
    if hostLowCPUThreshold >? hostHighCPUThreshold
    then hostHighCPUThreshold else hostLowCPUThreshold in
  {| requestsMilliCores := requestsMilliCores g;
     hostLowCPUThreshold := hostLowCPUThreshold;
     hostHighCPUThreshold := hostHighCPUThreshold;
     requestsMultiplier := requestsMultiplier g;
     keplerEnabled := keplerEnabled g |}.

(** [New]: the plugin or an error, and the package variables afterwards.
    [NewCollector] is [trimaran.NewCollector]. *)
Definition New
    (NewCollector : pluginConfig.TrimaranSpec -> trimaran.Collector + string)
    (obj : runtime.Object) (handle : framework.Handle) (g : Globals)
  : (PowerSaving + NewError) * Globals :=
  match obj with
  | runtime.OtherObject got => (inr (WantPowerSavingArgs got), g)
  | runtime.PowerSavingArgsObject args =>
      match NewCollector (pluginConfig.trimaranSpec args) with
      | inr err => (inr (CollectorError err), g)
      | inl collector =>
          let g := setThresholds args g in
          let podAssignEventHandler := trimaran.New in
          (inl {| handle := handle;
                  eventHandler := podAssignEventHandler;
                  collector := collector;
                  args := args |}, g)
      end
  end.

(** Predict utilization for a container based on its requests/limits. *)
Definition PredictUtilisation (g : Globals) (container : v1.Container) : Z :=
  match v1.Limits (v1.Resources container) !! v1.ResourceCPU with
  | Some _ => v1.MilliValue (v1.Cpu (v1.Limits (v1.Resources container)))
  | None =>
      match v1.Requests (v1.Resources container) !! v1.ResourceCPU with
      | Some _ =>
          to_int64
            (Round (of_int64 (v1.MilliValue
                                (v1.Cpu (v1.Requests (v1.Resources container))))
                    * requestsMultiplier g)%float)
      | None => requestsMilliCores g
      end
  end.

(** Lines 125-132 of [Score]: one turn of the scan over the node's samples;
    the accumulator is [(nodeCPUUtilPercent, cpuMetricFound)]. *)
Definition scanStep (acc : float * bool) (metric : watcher.Metric)
  : float * bool :=
  if String.eqb (watcher.Type_ metric) watcher.CPU then
    if String.eqb (watcher.Operator metric) watcher.Average
       || String.eqb (watcher.Operator metric) watcher.Latest
    then (watcher.Value metric, true)
    else acc
  else acc.

Definition scanMetrics (metrics : list watcher.Metric) : float * bool :=
  fold_left scanStep metrics (0%float, false).

(** The guard of lines 150-151 on a pod's timestamp and the window end. *)
Definition counted (windowEnd timestamp : Z) : bool :=
  (timestamp >? windowEnd)
  || ((timestamp <=? windowEnd)
      && (Int64.sub windowEnd timestamp
          <? metricsAgentReportingIntervalSeconds)).

(** Lines 152-155: what a counted pod adds to [missingCPUUtilMillis]. *)
Definition addPod (g : Globals) (missingCPUUtilMillis : Z) (pod : v1.Pod) : Z :=
  let missingCPUUtilMillis :=
    fold_left
      (fun missing container => Int64.add missing (PredictUtilisation g container))
      (v1.Containers (v1.Spec pod)) missingCPUUtilMillis in
  Int64.add missingCPUUtilMillis
            (v1.MilliValue (v1.Cpu (v1.Overhead (v1.Spec pod)))).

(** Lines 143-158: the loop over the pods recorded for the node. *)
Definition missingStep (g : Globals) (windowEnd : Z)
    (missingCPUUtilMillis : Z) (info : trimaran.podInfo) : Z :=
  if counted windowEnd (trimaran.Unix (trimaran.Timestamp info))
  then addPod g missingCPUUtilMillis (trimaran.Pod info)
  else missingCPUUtilMillis.

Definition missingCPUUtil (g : Globals) (windowEnd : Z)
    (infos : list trimaran.podInfo) : Z :=
  fold_left (missingStep g windowEnd) infos 0.

(** Lines 139 and 162-164: the utilization in millis and the percentage
    recomputed with the missing utilization, when the capacity is not zero. *)
Definition reconcile (nodeCPUUtilPercent nodeCPUCapMillis : float)
    (missingCPUUtilMillis : Z) : float :=
  let nodeCPUUtilMillis :=
    ((nodeCPUUtilPercent / 100) * nodeCPUCapMillis)%float in
  if negb (nodeCPUCapMillis =? 0)%float
  then (100 * (nodeCPUUtilMillis + of_int64 missingCPUUtilMillis)
        / nodeCPUCapMillis)%float
  else nodeCPUUtilPercent.

(** Lines 174-180: the score chosen from the utilization and the two
    thresholds. *)
Definition thresholdScore (hostLowCPUThreshold hostHighCPUThreshold : Z)
    (nodeCPUUtilPercent : float) : Z :=
  if (of_int64 hostHighCPUThreshold <=? nodeCPUUtilPercent)%float then
    to_int64 (Round nodeCPUUtilPercent)
  else if (nodeCPUUtilPercent <=? of_int64 hostLowCPUThreshold)%float then
    to_int64
      (Round (nodeCPUUtilPercent
              + of_int64 (Int64.sub hostHighCPUThreshold hostLowCPUThreshold))%float)
  else
    to_int64 (Round (nodeCPUUtilPercent - of_int64 hostLowCPUThreshold)%float).

Definition Score (pl : PowerSaving) (g : Globals) (pod : v1.Pod)
    (nodeName : string) : Z * framework.Status :=
  let score := framework.MinNodeScore in
  match framework.NodeInfos_Get (handle pl) nodeName with
  | inr err =>
      (score,
       framework.NewStatus framework.Error
         (framework.GettingNodeFromSnapshot nodeName err))
  | inl nodeInfo =>
      let '(metrics, allMetrics) :=
        trimaran.GetNodeMetrics (collector pl) nodeName in
      match metrics with
      | None => (score, framework.nil_status)
      | Some metrics =>
          let '(nodeCPUUtilPercent, cpuMetricFound) := scanMetrics metrics in
          if negb cpuMetricFound then (score, framework.nil_status)
          else
            let nodeCPUCapMillis :=
              of_int64
                (v1.MilliValue
                   (v1.Cpu (v1.Capacity
                              (v1.Status (framework.node nodeInfo))))) in
            let missingCPUUtilMillis :=
              missingCPUUtil g
                (watcher.End_ (watcher.window allMetrics))
                (default []
                   (trimaran.ScheduledPodsCache (eventHandler pl) !! nodeName)) in
            let nodeCPUUtilPercent :=
              reconcile nodeCPUUtilPercent nodeCPUCapMillis
                        missingCPUUtilMillis in
            let score :=
              if keplerEnabled g then score
              else thresholdScore (hostLowCPUThreshold g)
                                  (hostHighCPUThreshold g) nodeCPUUtilPercent in
            (score, framework.NewStatus framework.Success framework.NoReason)
      end
  end.

(** The state of [NormalizeScore]: the slice the caller passed and the loop
    variable.  In Go, [for _, nodeScore := range scores] assigns a copy of
    each element to [nodeScore], so the assignments of the body,
    [nodeScore.Score = ...], go to that copy and nothing is stored into
    [scores]. *)
Record normalizeState := {
  scores : list framework.NodeScore;
  nodeScore : framework.NodeScore
}.

Definition setScore (nodeScore : framework.NodeScore) (v : Z)
  : framework.NodeScore :=
  {| framework.Name := framework.Name nodeScore; framework.Score := v |}.

(** One turn of the loop of lines 192-198 on the element [elem]. *)
Definition normalizeStep (st : normalizeState) (elem : framework.NodeScore)
  : normalizeState :=
  let st := {| scores := scores st; nodeScore := elem |} in
  if framework.Score (nodeScore st) >? framework.MaxNodeScore then
    {| scores := scores st;
       nodeScore := setScore (nodeScore st) framework.MaxNodeScore |}
  else if framework.Score (nodeScore st) <? framework.MinNodeScore then
    {| scores := scores st;
       nodeScore := setScore (nodeScore st) framework.MinNodeScore |}
  else st.

(** The caller's list after the call, and the returned status. *)
Definition NormalizeScore (scores0 : list framework.NodeScore)
  : list framework.NodeScore * framework.Status :=
  let st :=
    fold_left normalizeStep scores0
      {| scores := scores0;
         nodeScore := {| framework.Name := ""; framework.Score := 0 |} |} in
  (scores st, framework.nil_status).

(** What a loop that stores through the index,
    [for i := range scores { scores[i].Score = ... }], leaves in the list;
    it is the behaviour the contract of the normalizer describes and is
    used only to compare [NormalizeScore] with. *)
Definition clampScore (nodeScore : framework.NodeScore) : framework.NodeScore :=
  if framework.Score nodeScore >? framework.MaxNodeScore then
    setScore nodeScore framework.MaxNodeScore
  else if framework.Score nodeScore <? framework.MinNodeScore then
    setScore nodeScore framework.MinNodeScore
  else nodeScore.

End powersaving.

(** ** The contract in the words of the specification

    Definitions that follow the specification, for comparison with the
    definitions above. *)

Module Contract.

(** A pending-assignment record is counted when its timestamp is strictly
    after the window end, or at or before it and less than one reporting
    interval away. *)
Definition recent (windowEnd timestamp : Z) : bool :=
  (windowEnd <? timestamp)
  || ((timestamp <=? windowEnd) && (windowEnd - timestamp <? 60)).

(** The predicted load of a pod: the predictions of its containers plus its
    CPU overhead, as a mathematical integer. *)
Definition predictedLoad (g : powersaving.Globals) (pod : v1.Pod) : Z :=
  foldr (fun container acc => powersaving.PredictUtilisation g container + acc)
        0 (v1.Containers (v1.Spec pod))
  + v1.MilliValue (v1.Cpu (v1.Overhead (v1.Spec pod))).

(** The missing utilization: the predicted loads of the counted records. *)
Definition missingTotal (g : powersaving.Globals) (windowEnd : Z)
    (infos : list trimaran.podInfo) : Z :=
  foldr (fun info acc =>
           (if recent windowEnd (trimaran.Unix (trimaran.Timestamp info))
            then predictedLoad g (trimaran.Pod info) else 0) + acc)
        0 infos.

(** A CPU-type sample whose operator is Average or Latest. *)
Definition cpuSample (metric : watcher.Metric) : Prop :=
  watcher.Type_ metric = watcher.CPU
  /\ (watcher.Operator metric = watcher.Average
      \/ watcher.Operator metric = watcher.Latest).

End Contract.

(** ** A small cluster, for evaluating the definitions *)

Module Examples.

Import powersaving.

Definition cpu (milli : Z) : gmap string v1.Quantity :=
  {[ v1.ResourceCPU := {| v1.MilliValue := milli |} ]}.

(** A container with a limit of 500m and a request of 100m. *)
Definition limited : v1.Container :=
  {| v1.Resources := {| v1.Limits := cpu 500; v1.Requests := cpu 100 |} |}.

(** A container with a request of 3m and no limit. *)
Definition requesting : v1.Container :=
  {| v1.Resources := {| v1.Limits := ∅; v1.Requests := cpu 3 |} |}.

(** A container that declares nothing. *)
Definition bare : v1.Container :=
  {| v1.Resources := {| v1.Limits := ∅; v1.Requests := ∅ |} |}.

Definition pod : v1.Pod :=
  {| v1.Name := "pod-1";
     v1.Spec := {| v1.Containers := [limited]; v1.Overhead := cpu 100 |} |}.

Definition record (timestamp : Z) : trimaran.podInfo :=
  {| trimaran.Timestamp := {| trimaran.Unix := timestamp |};
     trimaran.Pod := pod |}.

(** One record a second after the window end, one ten seconds before it and
    one long before it. *)
Definition records : list trimaran.podInfo :=
  [record 1001; record 990; record 100].

Definition sample (type operator : string) (value : float) : watcher.Metric :=
  {| watcher.Type_ := type; watcher.Operator := operator;
     watcher.Value := value |}.

Definition samples : list watcher.Metric :=
  [sample watcher.CPU watcher.Average 20;
   sample watcher.Memory watcher.Average 70;
   sample watcher.CPU watcher.Latest 50;
   sample watcher.CPU watcher.Std 3].

Definition snapshot : watcher.WatcherMetrics :=
  {| watcher.window := {| watcher.Start := 940; watcher.End_ := 1000 |} |}.

Definition nodeInfo (capacity : Z) : framework.NodeInfo :=
  {| framework.node := {| v1.Status := {| v1.Capacity := cpu capacity |} |} |}.

(** "node-0" has the samples above and a capacity of zero, "node-1" the
    same samples and 4000m, "node-2" has no metrics, "node-3" has no CPU
    sample, and no other node is known. *)
Definition handle : framework.Handle :=
  {| framework.NodeInfos_Get := fun nodeName =>
       if String.eqb nodeName "node-0" then inl (nodeInfo 0)
       else if String.eqb nodeName "node-1" then inl (nodeInfo 4000)
       else if String.eqb nodeName "node-2" then inl (nodeInfo 4000)
       else if String.eqb nodeName "node-3" then inl (nodeInfo 4000)
       else inr "nodeinfo not found" |}.

Definition collector : trimaran.Collector :=
  {| trimaran.GetNodeMetrics := fun nodeName =>
       if String.eqb nodeName "node-0" then (Some samples, snapshot)
       else if String.eqb nodeName "node-1" then (Some samples, snapshot)
       else if String.eqb nodeName "node-3"
            then (Some [sample watcher.Memory watcher.Average 70], snapshot)
            else (None, snapshot) |}.

Definition args : pluginConfig.PowerSavingArgs :=
  {| pluginConfig.trimaranSpec := {| pluginConfig.WatcherAddress := "" |};
     pluginConfig.LowCPUThreshold := 10;
     pluginConfig.HighCPUThreshold := 30 |}.

Definition plugin : PowerSaving :=
  {| powersaving.handle := handle;
     eventHandler := {| trimaran.ScheduledPodsCache := {[ "node-1" := records ]} |};
     powersaving.collector := collector;
     powersaving.args := args |}.

(** The package variables after [New] on [args]. *)
Definition globals : Globals := setThresholds args (initial 1000 0 0).

(** The same with a multiplier of one half. *)
Definition halved : Globals :=
  {| requestsMilliCores := 1000;
     hostLowCPUThreshold := 10;
     hostHighCPUThreshold := 30;
     requestsMultiplier := 0.5;
     keplerEnabled := false |}.

End Examples.

(** ** Notions read off the code, for stating further properties *)

Module Derived.

Import powersaving.

(** The test of lines 126-127 on one sample. *)
Definition matches (metric : watcher.Metric) : bool :=
  String.eqb (watcher.Type_ metric) watcher.CPU
  && (String.eqb (watcher.Operator metric) watcher.Average
      || String.eqb (watcher.Operator metric) watcher.Latest).

(** What the loop of lines 145-158 adds for one record, before wrap-around:
    the predicted load of the pod when the guard of lines 150-151 holds. *)
Definition contribution (g : Globals) (windowEnd : Z)
    (info : trimaran.podInfo) : Z :=
  if counted windowEnd (trimaran.Unix (trimaran.Timestamp info))
  then Contract.predictedLoad g (trimaran.Pod info)
  else 0.

(** The sum of the contributions of a list of records. *)
Definition total (g : Globals) (windowEnd : Z)
    (infos : list trimaran.podInfo) : Z :=
  foldr (fun info acc => contribution g windowEnd info + acc) 0 infos.

(** A score within the range of the framework. *)
Definition inRange (nodeScore : framework.NodeScore) : Prop :=
  framework.MinNodeScore <= framework.Score nodeScore <= framework.MaxNodeScore.

(** The package variables after a successful [New] on a freshly loaded
    package. *)
Definition afterNew (args : pluginConfig.PowerSavingArgs)
    (DefaultRequestsMilliCores DefaultLowCPUThreshold
     DefaultHighCPUThreshold : Z) : Globals :=
  setThresholds args
    (initial DefaultRequestsMilliCores DefaultLowCPUThreshold
             DefaultHighCPUThreshold).

End Derived.

(** ** Further concrete inputs *)

Module Cases.

Import powersaving.

(** A collector constructor that succeeds, and one that fails. *)
Definition NewCollector (spec : pluginConfig.TrimaranSpec)
  : trimaran.Collector + string :=
  inl Examples.collector.

Definition failing (spec : pluginConfig.TrimaranSpec)
  : trimaran.Collector + string :=
  inr "invalid watcher address".

(** Arguments with the low threshold above the high one, and the high one
    above [MaxNodeScore]. *)
Definition swapped : pluginConfig.PowerSavingArgs :=
  {| pluginConfig.trimaranSpec := pluginConfig.trimaranSpec Examples.args;
     pluginConfig.LowCPUThreshold := 120;
     pluginConfig.HighCPUThreshold := 110 |}.

(** The package variables that [New] leaves on [swapped]. *)
Definition repaired : Globals :=
  {| requestsMilliCores := 1000;
     hostLowCPUThreshold := 100;
     hostHighCPUThreshold := 100;
     requestsMultiplier := 0;
     keplerEnabled := false |}.

Definition otherPod : v1.Pod :=
  {| v1.Name := "pod-2";
     v1.Spec := {| v1.Containers := [Examples.bare; Examples.requesting];
                   v1.Overhead := ∅ |} |}.

(** The plugin of the examples with the records of "node-1" in the opposite
    order, records for another node, and other arguments. *)
Definition reordered : PowerSaving :=
  {| powersaving.handle := Examples.handle;
     eventHandler :=
       {| trimaran.ScheduledPodsCache :=
            {[ "node-1" := [Examples.record 100; Examples.record 990;
                            Examples.record 1001];
               "node-2" := [Examples.record 995] ]} |};
     powersaving.collector := Examples.collector;
     powersaving.args := swapped |}.

End Cases.

(** * Properties *)

(** ** Wrap-around *)

Lemma wrap_in_range (z : Z) : Int64.in_range z -> Int64.wrap z = z.
Proof.
  unfold Int64.in_range, Int64.wrap, Int64.min_int, Int64.max_int.
  intros H. rewrite Z.mod_small; lia.
Qed.

Lemma wrap_add_l (a b : Z) : Int64.wrap (Int64.wrap a + b) = Int64.wrap (a + b).
Proof.
  unfold Int64.wrap.
  replace ((a + 2 ^ 63) mod 2 ^ 64 - 2 ^ 63 + b + 2 ^ 63)
    with ((a + 2 ^ 63) mod 2 ^ 64 + b) by lia.
  rewrite Zplus_mod_idemp_l. f_equal. f_equal. lia.
Qed.

Lemma add_wrap (a b : Z) : Int64.add a b = Int64.wrap (a + b).
Proof. reflexivity. Qed.

Lemma wrap_range (z : Z) : Int64.in_range (Int64.wrap z).
Proof.
  unfold Int64.in_range, Int64.wrap, Int64.min_int, Int64.max_int.
  pose proof (Z.mod_pos_bound (z + 2 ^ 63) (2 ^ 64) ltac:(lia)). lia.
Qed.

(** ** Binary64: rounding and order

    The results of [SpecFloat]'s operations in terms of exact values. *)

Import Binary64.

Lemma digits2_pos_size (p : positive) : digits2_pos p = Pos.size p.
Proof. induction p; simpl; congruence. Qed.

Lemma digits_pos_bounds (p : positive) :
  2 ^ (digits (Z.pos p) - 1) <= Z.pos p < 2 ^ digits (Z.pos p).
Proof.
  unfold digits; simpl. rewrite digits2_pos_size.
  pose proof (Pos.size_gt p) as Hgt. pose proof (Pos.size_le p) as Hle.
  apply Pos2Z.pos_lt_pos in Hgt. apply Pos2Z.pos_le_pos in Hle.
  rewrite Pos2Z.inj_pow in Hgt, Hle.
  change (Z.pos 2) with 2 in *.
  split; [|exact Hgt].
  assert (0 < Z.pos (Pos.size p)) by lia.
  replace (Z.pos (Pos.size p)) with (Z.pos (Pos.size p) - 1 + 1) in Hle by lia.
  rewrite Z.pow_add_r in Hle by lia. change (2 ^ 1) with 2 in Hle.
  lia.
Qed.

Lemma digits_pos_gt0 (p : positive) : 0 < digits (Z.pos p).
Proof. unfold digits; simpl; lia. Qed.

Lemma digits_unique (v d : Z) :
  2 ^ (d - 1) <= v < 2 ^ d -> 0 < v -> digits v = d.
Proof.
  intros [Hlo Hhi] Hv. destruct v as [|p|p]; try lia.
  pose proof (digits_pos_bounds p) as [Hlo' Hhi'].
  pose proof (digits_pos_gt0 p) as Hd.
  set (d' := digits (Z.pos p)) in *.
  assert (0 < d).
  { destruct (Z_lt_le_dec 0 d) as [?|Hd0]; [assumption|exfalso].
    destruct (Z.eq_dec d 0) as [->|Hne]; [simpl in Hhi; lia|].
    rewrite (Z.pow_neg_r 2 d) in Hhi by lia. lia. }
  destruct (Z.lt_trichotomy d d') as [Hlt|[Heq|Hgt]]; [|symmetry; assumption|].
  - exfalso. assert (2 ^ d <= 2 ^ (d' - 1)) by (apply Z.pow_le_mono_r; lia). lia.
  - exfalso. assert (2 ^ d' <= 2 ^ (d - 1)) by (apply Z.pow_le_mono_r; lia). lia.
Qed.

(** *** Shifting right with a round bit and a sticky bit *)

Lemma iter_pos_nat {A : Type} (f : A -> A) (p : positive) (x : A) :
  SpecFloat.iter_pos f p x = Nat.iter (Pos.to_nat p) f x.
Proof.
  revert x; induction p as [p IH|p IH|]; intros x.
  - change (SpecFloat.iter_pos f p~1 x)
      with (SpecFloat.iter_pos f p (SpecFloat.iter_pos f p (f x))).
    rewrite !IH, Pos2Nat.inj_xI.
    replace (S (2 * Pos.to_nat p))%nat
      with (Pos.to_nat p + (Pos.to_nat p + 1))%nat by lia.
    rewrite !Nat.iter_add. reflexivity.
  - change (SpecFloat.iter_pos f p~0 x)
      with (SpecFloat.iter_pos f p (SpecFloat.iter_pos f p x)).
    rewrite !IH, Pos2Nat.inj_xO.
    replace (2 * Pos.to_nat p)%nat with (Pos.to_nat p + Pos.to_nat p)%nat by lia.
    rewrite Nat.iter_add. reflexivity.
  - reflexivity.
Qed.

Lemma shr_1_spec (m : Z) (r s : bool) :
  0 <= m ->
  shr_1 {| shr_m := m; shr_r := r; shr_s := s |}
  = {| shr_m := m / 2; shr_r := Z.odd m; shr_s := r || s |}.
Proof.
  intros Hm. rewrite <- Z.div2_div.
  destruct m as [|p|p]; [reflexivity| |lia].
  destruct p as [p|p|]; reflexivity.
Qed.

(** [n + 1] shifts of an exact record. *)
Lemma shr_iter_spec (m : Z) (n : nat) :
  0 <= m ->
  Nat.iter (S n) shr_1 {| shr_m := m; shr_r := false; shr_s := false |}
  = {| shr_m := m / 2 ^ Z.of_nat (S n);
       shr_r := Z.odd (m / 2 ^ Z.of_nat n);
       shr_s := negb (m mod 2 ^ Z.of_nat n =? 0) |}.
Proof.
  intros Hm. induction n as [|n IH].
  - cbn [Nat.iter nat_rect]. rewrite shr_1_spec by assumption.
    change (2 ^ Z.of_nat 1) with 2. change (2 ^ Z.of_nat 0) with 1.
    rewrite Z.div_1_r, Z.mod_1_r. reflexivity.
  - change (Nat.iter (S (S n)) shr_1 ?x) with (shr_1 (Nat.iter (S n) shr_1 x)).
    rewrite IH.
    assert (H2n : 0 < 2 ^ Z.of_nat n) by (apply Z.pow_pos_nonneg; lia).
    rewrite shr_1_spec by (apply Z.div_pos; [assumption|apply Z.pow_pos_nonneg; lia]).
    f_equal.
    + rewrite Z.div_div by lia.
      f_equal. rewrite (Nat2Z.inj_succ (S n)), Z.pow_succ_r by lia. lia.
    + rewrite (Nat2Z.inj_succ n), Z.pow_succ_r by lia.
      rewrite (Z.mul_comm 2), Z.rem_mul_r by lia.
      rewrite <- Z.bit0_mod, Z.bit0_odd.
      pose proof (Z.mod_pos_bound m (2 ^ Z.of_nat n) H2n) as Hb.
      destruct (Z.odd (m / 2 ^ Z.of_nat n)); simpl Z.b2z.
      * simpl. symmetry. apply negb_true_iff, Z.eqb_neq. lia.
      * simpl. f_equal. f_equal. lia.
Qed.

(** The mantissa rounded after a shift by [n + 1] bits is [rne_div]. *)
Lemma round_shr_iter (m : Z) (n : nat) :
  0 <= m ->
  let mrs := Nat.iter (S n) shr_1 {| shr_m := m; shr_r := false; shr_s := false |} in
  round_nearest_even (shr_m mrs) (loc_of_shr_record mrs)
  = rne_div m (Z.of_nat (S n)).
Proof.
  intros Hm mrs. subst mrs. rewrite shr_iter_spec by assumption.
  unfold rne_div. cbn [shr_m].
  assert (H2n : 0 < 2 ^ Z.of_nat n) by (apply Z.pow_pos_nonneg; lia).
  rewrite (Nat2Z.inj_succ n), Z.pow_succ_r by lia.
  assert (Hrem : m mod (2 * 2 ^ Z.of_nat n)
                 = m mod 2 ^ Z.of_nat n
                   + 2 ^ Z.of_nat n * Z.b2z (Z.odd (m / 2 ^ Z.of_nat n))).
  { rewrite (Z.mul_comm 2), Z.rem_mul_r by lia.
    rewrite <- Z.bit0_mod, Z.bit0_odd. reflexivity. }
  rewrite Hrem. clear Hrem.
  pose proof (Z.mod_pos_bound m (2 ^ Z.of_nat n) H2n) as Hb.
  set (q := m / (2 * 2 ^ Z.of_nat n)).
  set (b := m mod 2 ^ Z.of_nat n) in *.
  destruct (Z.odd (m / 2 ^ Z.of_nat n)); simpl Z.b2z.
  - destruct (Z.eqb_spec b 0) as [Hb0|Hb0]; simpl.
    + replace (2 * (b + 2 ^ Z.of_nat n * 1) ?= 2 * 2 ^ Z.of_nat n) with Eq
        by (symmetry; apply Z.compare_eq_iff; lia).
      reflexivity.
    + replace (2 * (b + 2 ^ Z.of_nat n * 1) ?= 2 * 2 ^ Z.of_nat n) with Gt
        by (symmetry; apply Z.compare_gt_iff; lia).
      reflexivity.
  - replace (2 * (b + 2 ^ Z.of_nat n * 0) ?= 2 * 2 ^ Z.of_nat n) with Lt
      by (symmetry; apply Z.compare_lt_iff; lia).
    destruct (Z.eqb_spec b 0); reflexivity.
Qed.

(** *** The format *)

Lemma fexp_eq (x : Z) : fexp prec emax x = Z.max (x - 53) (-1074).
Proof. reflexivity. Qed.

Lemma pow2_pos (k : Z) : 0 <= k -> 0 < 2 ^ k.
Proof. intros; apply Z.pow_pos_nonneg; lia. Qed.

Lemma digits_shift (p : positive) (j : Z) :
  0 <= j -> digits (Z.pos p * 2 ^ j) = digits (Z.pos p) + j.
Proof.
  intros Hj. pose proof (digits_pos_bounds p) as [Hlo Hhi].
  pose proof (digits_pos_gt0 p) as Hd. pose proof (pow2_pos j Hj) as H2.
  apply digits_unique; [|lia].
  replace (digits (Z.pos p) + j - 1) with (digits (Z.pos p) - 1 + j) by lia.
  rewrite !Z.pow_add_r by lia. split.
  - apply Z.mul_le_mono_nonneg_r; lia.
  - apply Z.mul_lt_mono_pos_r; lia.
Qed.

Lemma pos_iter_xO (m d : positive) :
  Z.pos (Pos.iter xO m d) = Z.pos m * 2 ^ Z.pos d.
Proof.
  induction d as [|d IH] using Pos.peano_ind.
  - simpl. lia.
  - rewrite Pos.iter_succ, Pos2Z.inj_xO, IH, Pos2Z.inj_succ, Z.pow_succ_r by lia.
    lia.
Qed.

(** Aligning a mantissa on a smaller exponent keeps the value. *)
Lemma shl_align_le (m : positive) (e E : Z) :
  E <= e ->
  exists mz, shl_align m e E = (mz, E) /\ Z.pos mz = Z.pos m * 2 ^ (e - E).
Proof.
  intros HE. unfold shl_align.
  destruct (E - e) as [|d|d] eqn:Hd; try lia.
  - assert (E = e) by lia. subst E. exists m. rewrite Z.sub_diag. split; [reflexivity|lia].
  - exists (Pos.iter xO m d). split; [reflexivity|].
    rewrite pos_iter_xO. f_equal. f_equal. lia.
Qed.

Lemma shl_align_gt (m : positive) (e E : Z) :
  e < E -> shl_align m e E = (m, e).
Proof.
  intros HE. unfold shl_align.
  destruct (E - e) as [|d|d] eqn:Hd; try lia. reflexivity.
Qed.

Lemma compare_mul_r (a b c : Z) : 0 < c -> (a * c ?= b * c) = (a ?= b).
Proof.
  intros Hc. destruct (Z.compare_spec a b);
    [apply Z.compare_eq_iff | apply Z.compare_lt_iff | apply Z.compare_gt_iff]; nia.
Qed.

Lemma rne_div_scale (m n j : Z) :
  0 <= n -> 0 <= j -> rne_div (m * 2 ^ j) (n + j) = rne_div m n.
Proof.
  intros Hn Hj. unfold rne_div.
  pose proof (pow2_pos n Hn). pose proof (pow2_pos j Hj).
  rewrite Z.pow_add_r by lia.
  rewrite Z.div_mul_cancel_r by lia.
  rewrite Z.mul_mod_distr_r by lia.
  replace (2 * (m mod 2 ^ n * 2 ^ j)) with (2 * (m mod 2 ^ n) * 2 ^ j) by lia.
  rewrite compare_mul_r by lia. reflexivity.
Qed.

Lemma rne_div_bounds (m n : Z) :
  0 <= n -> m / 2 ^ n <= rne_div m n <= m / 2 ^ n + 1.
Proof.
  intros Hn. unfold rne_div.
  destruct (2 * (m mod 2 ^ n) ?= 2 ^ n); [destruct (Z.even _)| |]; lia.
Qed.

Lemma rne_div_exact (m n : Z) :
  0 <= n -> m mod 2 ^ n = 0 -> rne_div m n * 2 ^ n = m.
Proof.
  intros Hn Hmod. unfold rne_div. rewrite Hmod.
  pose proof (pow2_pos n Hn).
  replace (2 * 0 ?= 2 ^ n) with Lt by (symmetry; apply Z.compare_lt_iff; lia).
  pose proof (Z.div_mod m (2 ^ n) ltac:(lia)). lia.
Qed.

Lemma shr_fexp_canonical (m : positive) (e : Z) :
  fexp prec emax (digits (Z.pos m) + e) = e ->
  shr_fexp prec emax (Z.pos m) e loc_Exact
  = ({| shr_m := Z.pos m; shr_r := false; shr_s := false |}, e).
Proof.
  intros H. unfold shr_fexp. unfold digits in H. rewrite H, Z.sub_diag.
  reflexivity.
Qed.

(** A mantissa that already fits is returned as it is. *)
Lemma binary_round_aux_canonical (s : bool) (m : positive) (e : Z) :
  fexp prec emax (digits (Z.pos m) + e) = e ->
  binary_round_aux prec emax s (Z.pos m) e loc_Exact
  = if e <=? emax - prec then S754_finite s m e else S754_infinity s.
Proof.
  intros H. unfold binary_round_aux.
  rewrite shr_fexp_canonical by assumption.
  cbn [shr_m loc_of_shr_record round_nearest_even].
  rewrite shr_fexp_canonical by assumption.
  reflexivity.
Qed.

Lemma canonical_finite (s : bool) (m : positive) (e : Z) :
  fexp prec emax (digits (Z.pos m) + e) = e ->
  -1074 <= e ->
  rounds_to s (Z.pos m * 2 ^ (e + unit_exp))
    (if e <=? emax - prec then S754_finite s m e else S754_infinity s).
Proof.
  intros Hc He. rewrite fexp_eq in Hc.
  pose proof (digits_pos_bounds m) as [Hlo Hhi].
  pose proof (digits_pos_gt0 m) as Hd.
  unfold rounds_to, unit_exp, top.
  change (emax - prec) with 971.
  destruct (Z.leb_spec e 971) as [Hle|Hgt].
  - split.
    + simpl. unfold bounded, canonical_mantissa.
      fold (digits (Z.pos m)). rewrite fexp_eq.
      apply andb_true_iff; split; [apply Z.eqb_eq; exact Hc|].
      apply Z.leb_le. exact Hle.
    + right. exists m, e. split; [reflexivity|]. split; [reflexivity|].
      assert (digits (Z.pos m) <= 53) by lia.
      assert (2 ^ digits (Z.pos m) <= 2 ^ 53) by (apply Z.pow_le_mono_r; lia).
      assert (2 ^ (e + 1074) <= 2 ^ 2045) by (apply Z.pow_le_mono_r; lia).
      pose proof (pow2_pos (e + 1074) ltac:(lia)).
      replace (2 ^ 2098) with (2 ^ 53 * 2 ^ 2045)
        by (rewrite <- Z.pow_add_r by lia; reflexivity).
      apply Z.lt_le_trans with (2 ^ 53 * 2 ^ (e + 1074)).
      * apply Z.mul_lt_mono_pos_r; lia.
      * apply Z.mul_le_mono_nonneg_l; lia.
  - split; [reflexivity|]. left. split; [reflexivity|].
    assert (digits (Z.pos m) = 53) by lia.
    assert (2 ^ 52 <= Z.pos m) by (rewrite H in Hlo; exact Hlo).
    assert (2 ^ 2046 <= 2 ^ (e + 1074)) by (apply Z.pow_le_mono_r; lia).
    replace (2 ^ 2098) with (2 ^ 52 * 2 ^ 2046)
      by (rewrite <- Z.pow_add_r by lia; reflexivity).
    apply Z.mul_le_mono_nonneg; lia.
Qed.

Lemma RN_grid (m : positive) (j : Z) :
  0 <= j -> digits (Z.pos m) <= 53 -> RN (Z.pos m * 2 ^ j) = Z.pos m * 2 ^ j.
Proof.
  intros Hj Hd. unfold RN. rewrite digits_shift by assumption.
  pose proof (digits_pos_gt0 m) as Hd0.
  destruct (Z.leb_spec (digits (Z.pos m) + j) 53) as [Hle|Hgt]; [reflexivity|].
  apply rne_div_exact; [lia|].
  set (k := digits (Z.pos m) + j - 53).
  replace j with ((j - k) + k) by lia.
  rewrite Z.pow_add_r, Z.mul_assoc by lia.
  apply Z.mod_mul. pose proof (pow2_pos k ltac:(lia)). lia.
Qed.

Lemma RN_round (m : positive) (j : Z) :
  0 <= j -> 53 < digits (Z.pos m) ->
  RN (Z.pos m * 2 ^ j)
  = rne_div (Z.pos m) (digits (Z.pos m) - 53) * 2 ^ (digits (Z.pos m) - 53 + j).
Proof.
  intros Hj Hd. unfold RN. rewrite digits_shift by assumption.
  destruct (Z.leb_spec (digits (Z.pos m) + j) 53) as [Hle|Hgt]; [lia|].
  replace (digits (Z.pos m) + j - 53) with (digits (Z.pos m) - 53 + j) by lia.
  rewrite rne_div_scale by lia. reflexivity.
Qed.

Lemma shr_fexp_shift (m : positive) (e : Z) :
  53 < digits (Z.pos m) -> -1074 <= e ->
  exists mrs,
    shr_fexp prec emax (Z.pos m) e loc_Exact
    = (mrs, e + (digits (Z.pos m) - 53))
    /\ round_nearest_even (shr_m mrs) (loc_of_shr_record mrs)
       = rne_div (Z.pos m) (digits (Z.pos m) - 53).
Proof.
  intros Hd He. unfold shr_fexp. fold (digits (Z.pos m)).
  rewrite fexp_eq.
  replace (Z.max (digits (Z.pos m) + e - 53) (-1074) - e)
    with (digits (Z.pos m) - 53) by lia.
  destruct (digits (Z.pos m) - 53) as [|p|p] eqn:Hn; try lia.
  unfold shr. rewrite iter_pos_nat.
  destruct (Pos2Nat.is_succ p) as [n Hp]. rewrite Hp.
  eexists; split; [reflexivity|].
  cbn [shr_record_of_loc].
  rewrite (round_shr_iter (Z.pos m) n) by lia.
  f_equal. lia.
Qed.

Lemma rne_div_round_bounds (m : positive) :
  53 < digits (Z.pos m) ->
  2 ^ 52 <= rne_div (Z.pos m) (digits (Z.pos m) - 53) <= 2 ^ 53.
Proof.
  intros Hd. set (n := digits (Z.pos m) - 53).
  pose proof (digits_pos_bounds m) as [Hlo Hhi].
  pose proof (rne_div_bounds (Z.pos m) n ltac:(lia)) as [Hq1 Hq2].
  pose proof (pow2_pos n ltac:(lia)) as H2n.
  assert (Hq : 2 ^ 52 <= Z.pos m / 2 ^ n < 2 ^ 53).
  { split.
    - apply Z.div_le_lower_bound; [lia|].
      rewrite <- Z.pow_add_r by lia.
      replace (n + 52) with (digits (Z.pos m) - 1) by lia. exact Hlo.
    - apply Z.div_lt_upper_bound; [lia|].
      rewrite <- Z.pow_add_r by lia.
      replace (n + 53) with (digits (Z.pos m)) by lia. exact Hhi. }
  lia.
Qed.

(** [binary_round] on a magnitude of [m * 2^e], [e] not below the smallest
    exponent: the result is valid and carries the value rounded to 53 bits,
    or is an infinity when that value is out of range. *)
Lemma binary_round_spec (s : bool) (m : positive) (e : Z) :
  -1074 <= e ->
  rounds_to s (RN (Z.pos m * 2 ^ (e + unit_exp))) (binary_round prec emax s m e).
Proof.
  intros He. unfold binary_round, unit_exp.
  change (Z.pos (digits2_pos m)) with (digits (Z.pos m)).
  pose proof (digits_pos_gt0 m) as Hd0.
  destruct (Z_le_gt_dec (digits (Z.pos m)) 53) as [Hd|Hd].
  - (* the mantissa fits: no rounding *)
    rewrite RN_grid by lia.
    set (E := fexp prec emax (digits (Z.pos m) + e)).
    assert (HE : E = Z.max (digits (Z.pos m) + e - 53) (-1074)) by apply fexp_eq.
    destruct (shl_align_le m e E ltac:(lia)) as (mz & -> & Hmz).
    assert (Hdz : digits (Z.pos mz) = digits (Z.pos m) + (e - E)).
    { rewrite Hmz. apply digits_shift. lia. }
    assert (Hc : fexp prec emax (digits (Z.pos mz) + E) = E).
    { rewrite Hdz. replace (digits (Z.pos m) + (e - E) + E)
        with (digits (Z.pos m) + e) by lia. reflexivity. }
    rewrite binary_round_aux_canonical by exact Hc.
    replace (Z.pos m * 2 ^ (e + 1074)) with (Z.pos mz * 2 ^ (E + unit_exp)).
    + apply canonical_finite; [exact Hc|lia].
    + rewrite Hmz. unfold unit_exp. rewrite <- Z.mul_assoc, <- Z.pow_add_r by lia.
      f_equal. f_equal. lia.
  - (* the mantissa is shifted right and rounded *)
    rewrite RN_round by lia.
    rewrite shl_align_gt by (rewrite fexp_eq; lia).
    unfold binary_round_aux.
    destruct (shr_fexp_shift m e ltac:(lia) He) as (mrs & -> & ->).
    pose proof (rne_div_round_bounds m ltac:(lia)) as [Hlo Hhi].
    set (n := digits (Z.pos m) - 53) in *.
    destruct (rne_div (Z.pos m) n) as [|p2|p2] eqn:Hm2; try lia.
    destruct (Z.eq_dec (Z.pos p2) (2 ^ 53)) as [Heq|Hne].
    + (* the rounded mantissa carried into a 54th bit *)
      assert (Hp2 : p2 = 9007199254740992%positive)
        by (apply Pos2Z.inj; rewrite Heq; reflexivity).
      subst p2. clear Heq Hlo Hhi.
      unfold shr_fexp. change (Zdigits2 (Z.pos 9007199254740992)) with 54.
      rewrite fexp_eq.
      replace (Z.max (54 + (e + n) - 53) (-1074) - (e + n)) with 1 by lia.
      cbn [shr_record_of_loc shr SpecFloat.iter_pos shr_1 shr_m].
      replace (Z.pos 9007199254740992 * 2 ^ (n + (e + 1074)))
        with (Z.pos 4503599627370496 * 2 ^ ((e + n + 1) + unit_exp)).
      * apply canonical_finite; [|lia].
        rewrite fexp_eq. change (digits (Z.pos 4503599627370496)) with 53. lia.
      * unfold unit_exp.
        replace (e + n + 1 + 1074) with (1 + (n + (e + 1074))) by lia.
        rewrite (Z.pow_add_r 2 1) by lia. lia.
    + assert (Hd2 : digits (Z.pos p2) = 53) by (apply digits_unique; lia).
      assert (Hc : fexp prec emax (digits (Z.pos p2) + (e + n)) = e + n).
      { rewrite Hd2, fexp_eq. lia. }
      rewrite shr_fexp_canonical by exact Hc.
      cbn [shr_m].
      replace (Z.pos p2 * 2 ^ (n + (e + 1074)))
        with (Z.pos p2 * 2 ^ ((e + n) + unit_exp))
        by (unfold unit_exp; f_equal; f_equal; lia).
      apply canonical_finite; [exact Hc|lia].
Qed.

(** *** Order of valid doubles *)

Lemma valid_finite_inv (s : bool) (m : positive) (e : Z) :
  valid_binary (S754_finite s m e) = true ->
  -1074 <= e <= 971
  /\ digits (Z.pos m) <= 53
  /\ (-1074 < e -> digits (Z.pos m) = 53).
Proof.
  simpl. unfold bounded, canonical_mantissa.
  fold (digits (Z.pos m)). rewrite fexp_eq.
  intros H. apply andb_true_iff in H as [Hc Hb].
  apply Z.eqb_eq in Hc. apply Z.leb_le in Hb.
  change (emax - prec) with 971 in Hb. lia.
Qed.

Lemma valid_finite_value (s : bool) (m : positive) (e : Z) :
  valid_binary (S754_finite s m e) = true ->
  0 < Z.pos m * 2 ^ (e + unit_exp) < top.
Proof.
  intros H. apply valid_finite_inv in H as (He & Hd & _).
  unfold unit_exp, top.
  pose proof (pow2_pos (e + 1074) ltac:(lia)).
  pose proof (digits_pos_bounds m) as [_ Hhi].
  assert (2 ^ digits (Z.pos m) <= 2 ^ 53) by (apply Z.pow_le_mono_r; lia).
  assert (2 ^ (e + 1074) <= 2 ^ 2045) by (apply Z.pow_le_mono_r; lia).
  split; [lia|].
  replace (2 ^ 2098) with (2 ^ 53 * 2 ^ 2045)
    by (rewrite <- Z.pow_add_r by lia; reflexivity).
  apply Z.lt_le_trans with (2 ^ 53 * 2 ^ (e + 1074)).
  - apply Z.mul_lt_mono_pos_r; lia.
  - apply Z.mul_le_mono_nonneg_l; lia.
Qed.

Lemma valid_values_lt (m1 m2 : positive) (e1 e2 : Z) (s1 s2 : bool) :
  valid_binary (S754_finite s1 m1 e1) = true ->
  valid_binary (S754_finite s2 m2 e2) = true ->
  e1 < e2 ->
  Z.pos m1 * 2 ^ (e1 + unit_exp) < Z.pos m2 * 2 ^ (e2 + unit_exp).
Proof.
  intros H1 H2 Hlt.
  apply valid_finite_inv in H1 as (He1 & Hd1 & _).
  apply valid_finite_inv in H2 as (He2 & _ & Hd2).
  specialize (Hd2 ltac:(lia)). unfold unit_exp.
  pose proof (digits_pos_bounds m1) as [_ Hhi].
  pose proof (digits_pos_bounds m2) as [Hlo _]. rewrite Hd2 in Hlo.
  assert (2 ^ digits (Z.pos m1) <= 2 ^ 53) by (apply Z.pow_le_mono_r; lia).
  pose proof (pow2_pos (e1 + 1074) ltac:(lia)).
  assert (2 ^ (e1 + 1 + 1074) <= 2 ^ (e2 + 1074)) by (apply Z.pow_le_mono_r; lia).
  apply Z.lt_le_trans with (2 ^ 53 * 2 ^ (e1 + 1074)).
  - apply Z.mul_lt_mono_pos_r; lia.
  - apply Z.le_trans with (2 ^ 52 * 2 ^ (e1 + 1 + 1074)).
    + replace (e1 + 1 + 1074) with (1 + (e1 + 1074)) by lia.
      rewrite (Z.pow_add_r 2 1) by lia. lia.
    + apply Z.mul_le_mono_nonneg; lia.
Qed.

Lemma compare_finite_same_sign (m1 m2 : positive) (e1 e2 : Z) (s1 s2 : bool) :
  valid_binary (S754_finite s1 m1 e1) = true ->
  valid_binary (S754_finite s2 m2 e2) = true ->
  match e1 ?= e2 with
  | Lt => Lt
  | Gt => Gt
  | Eq => Pos.compare_cont Eq m1 m2
  end
  = (Z.pos m1 * 2 ^ (e1 + unit_exp) ?= Z.pos m2 * 2 ^ (e2 + unit_exp)).
Proof.
  intros H1 H2. destruct (Z.compare_spec e1 e2) as [Heq|Hlt|Hgt].
  - subst e2. apply valid_finite_inv in H1 as (He1 & _).
    rewrite compare_mul_r by (apply pow2_pos; unfold unit_exp; lia).
    reflexivity.
  - symmetry. apply Z.compare_lt_iff. eapply valid_values_lt; eassumption.
  - symmetry. apply Z.compare_gt_iff. eapply valid_values_lt; eassumption.
Qed.

(** On valid doubles other than NaN, [SFcompare] is the comparison of the
    values. *)
Lemma SFcompare_xval (x y : spec_float) :
  valid_binary x = true -> valid_binary y = true ->
  is_nan_SF x = false -> is_nan_SF y = false ->
  SFcompare x y = Some (xval x ?= xval y).
Proof.
  intros Vx Vy Nx Ny.
  assert (Htop : 0 < top) by (unfold top; apply pow2_pos; lia).
  destruct x as [sx|sx| |sx mx ex]; try discriminate;
  destruct y as [sy|sy| |sy my ey]; try discriminate;
  try (pose proof (valid_finite_value _ _ _ Vx));
  try (pose proof (valid_finite_value _ _ _ Vy));
  try (pose proof (compare_finite_same_sign _ _ _ _ _ _ Vx Vy) as Hc);
  cbn [SFcompare xval];
  try destruct sx; try destruct sy; cbn [cond_Zopp];
  try rewrite Hc; try rewrite Z.compare_opp;
  try reflexivity;
  try (f_equal; symmetry;
       first [ apply Z.compare_eq_iff; lia
             | apply Z.compare_lt_iff; lia
             | apply Z.compare_gt_iff; lia ]).
  rewrite (Z.compare_antisym (Z.pos mx * _) (Z.pos my * _)), <- Hc.
  destruct (ex ?= ey); reflexivity.
Qed.

(** *** Rounding to 53 bits is monotone *)

Lemma digits_0 : digits 0 = 0.
Proof. reflexivity. Qed.

Lemma digits_nonneg_bounds (v : Z) :
  0 < v -> 2 ^ (digits v - 1) <= v < 2 ^ digits v /\ 0 < digits v.
Proof.
  intros Hv. destruct v as [|p|p]; try lia.
  split; [apply digits_pos_bounds|apply digits_pos_gt0].
Qed.

Lemma digits_mono (a b : Z) : 0 < a -> a <= b -> digits a <= digits b.
Proof.
  intros Ha Hab.
  destruct (digits_nonneg_bounds a Ha) as [[Hlo _] Hda].
  destruct (digits_nonneg_bounds b ltac:(lia)) as [[_ Hhi] Hdb].
  destruct (Z_le_gt_dec (digits a) (digits b)) as [?|Hgt]; [assumption|exfalso].
  assert (2 ^ digits b <= 2 ^ (digits a - 1)) by (apply Z.pow_le_mono_r; lia).
  lia.
Qed.

Lemma rne_div_mono (a b k : Z) :
  0 <= k -> a <= b -> rne_div a k <= rne_div b k.
Proof.
  intros Hk Hab. pose proof (pow2_pos k Hk) as H2k.
  pose proof (Z.div_le_mono a b (2 ^ k) H2k Hab) as Hq.
  pose proof (Z.div_mod a (2 ^ k) ltac:(lia)) as Ha.
  pose proof (Z.div_mod b (2 ^ k) ltac:(lia)) as Hb.
  pose proof (Z.mod_pos_bound a (2 ^ k) H2k) as Hra.
  pose proof (Z.mod_pos_bound b (2 ^ k) H2k) as Hrb.
  unfold rne_div.
  set (qa := a / 2 ^ k) in *. set (qb := b / 2 ^ k) in *.
  set (ra := a mod 2 ^ k) in *. set (rb := b mod 2 ^ k) in *.
  destruct (Z.eq_dec qa qb) as [Heq|Hne].
  - assert (ra <= rb) by nia.
    rewrite <- Heq.
    destruct (Z.compare_spec (2 * ra) (2 ^ k));
      destruct (Z.compare_spec (2 * rb) (2 ^ k));
      destruct (Z.even qa); lia.
  - assert (qa + 1 <= qb) by lia.
    destruct (2 * ra ?= 2 ^ k); destruct (2 * rb ?= 2 ^ k);
      destruct (Z.even qa); destruct (Z.even qb); lia.
Qed.

Lemma RN_0 : RN 0 = 0.
Proof. reflexivity. Qed.

Lemma RN_bounds (v : Z) :
  0 < v -> 2 ^ (digits v - 1) <= RN v <= 2 ^ digits v.
Proof.
  intros Hv. destruct (digits_nonneg_bounds v Hv) as [[Hlo Hhi] Hd].
  unfold RN. destruct (Z.leb_spec (digits v) 53) as [Hle|Hgt]; [lia|].
  set (k := digits v - 53).
  pose proof (pow2_pos k ltac:(lia)) as H2k.
  pose proof (rne_div_bounds v k ltac:(lia)) as [Hq1 Hq2].
  assert (Hq : 2 ^ 52 <= v / 2 ^ k < 2 ^ 53).
  { split.
    - apply Z.div_le_lower_bound; [lia|].
      rewrite <- Z.pow_add_r by lia.
      replace (k + 52) with (digits v - 1) by lia. exact Hlo.
    - apply Z.div_lt_upper_bound; [lia|].
      rewrite <- Z.pow_add_r by lia.
      replace (k + 53) with (digits v) by lia. exact Hhi. }
  replace (2 ^ (digits v - 1)) with (2 ^ 52 * 2 ^ k)
    by (rewrite <- Z.pow_add_r by lia; f_equal; lia).
  replace (2 ^ digits v) with (2 ^ 53 * 2 ^ k)
    by (rewrite <- Z.pow_add_r by lia; f_equal; lia).
  split; apply Z.mul_le_mono_nonneg_r; lia.
Qed.

Lemma RN_pos (v : Z) : 0 < v -> 0 < RN v.
Proof.
  intros Hv. pose proof (RN_bounds v Hv) as [Hlo _].
  destruct (digits_nonneg_bounds v Hv) as [_ Hd].
  pose proof (pow2_pos (digits v - 1) ltac:(lia)). lia.
Qed.

Lemma RN_mono (a b : Z) : 0 <= a -> a <= b -> RN a <= RN b.
Proof.
  intros Ha Hab.
  destruct (Z.eq_dec a 0) as [->|Ha0].
  { rewrite RN_0. destruct (Z.eq_dec b 0) as [->|Hb0]; [rewrite RN_0; lia|].
    pose proof (RN_pos b ltac:(lia)). lia. }
  pose proof (digits_mono a b ltac:(lia) Hab) as Hd.
  destruct (Z.eq_dec (digits a) (digits b)) as [Heq|Hne].
  - unfold RN. rewrite <- Heq.
    destruct (Z.leb_spec (digits a) 53) as [Hle|Hgt]; [lia|].
    apply Z.mul_le_mono_nonneg_r; [apply Z.lt_le_incl, pow2_pos; lia|].
    apply rne_div_mono; lia.
  - pose proof (RN_bounds a ltac:(lia)) as [_ Hhi].
    pose proof (RN_bounds b ltac:(lia)) as [Hlo _].
    destruct (digits_nonneg_bounds a ltac:(lia)) as [_ Hda].
    assert (2 ^ digits a <= 2 ^ (digits b - 1)) by (apply Z.pow_le_mono_r; lia).
    lia.
Qed.

Lemma sRN_mono (a b : Z) : a <= b -> sRN a <= sRN b.
Proof.
  intros Hab. unfold sRN.
  destruct (Z.ltb_spec a 0) as [Ha|Ha]; destruct (Z.ltb_spec b 0) as [Hb|Hb].
  - pose proof (RN_mono (- b) (- a) ltac:(lia) ltac:(lia)). lia.
  - pose proof (RN_pos (- a) ltac:(lia)).
    pose proof (RN_mono 0 b ltac:(lia) Hb) as H0. rewrite RN_0 in H0. lia.
  - lia.
  - apply RN_mono; lia.
Qed.

Lemma ovf_mono (a b : Z) : a <= b -> ovf a <= ovf b.
Proof. unfold ovf; lia. Qed.

Lemma sRN_opp (v : Z) : sRN (- v) = - sRN v.
Proof.
  unfold sRN. destruct (Z.ltb_spec (- v) 0); destruct (Z.ltb_spec v 0);
    try lia.
  - replace (- - v) with v by lia. reflexivity.
  - assert (v = 0) by lia. subst v. rewrite RN_0. reflexivity.
Qed.

(** A number of units that a double holds is left as it is. *)
Lemma sRN_xval (x : spec_float) :
  valid_binary x = true -> is_finite_SF x = true -> sRN (xval x) = xval x.
Proof.
  intros V F. destruct x as [s|s| |s m e]; try discriminate.
  - reflexivity.
  - pose proof (valid_finite_inv _ _ _ V) as (He & Hd & _).
    assert (HR : RN (Z.pos m * 2 ^ (e + unit_exp)) = Z.pos m * 2 ^ (e + unit_exp))
      by (apply RN_grid; unfold unit_exp; lia).
    pose proof (valid_finite_value _ _ _ V) as Hv.
    cbn [xval]. destruct s; cbn [cond_Zopp].
    + rewrite sRN_opp. f_equal. unfold sRN.
      destruct (Z.ltb_spec (Z.pos m * 2 ^ (e + unit_exp)) 0); [lia|exact HR].
    + unfold sRN.
      destruct (Z.ltb_spec (Z.pos m * 2 ^ (e + unit_exp)) 0); [lia|exact HR].
Qed.

Lemma xval_bounds (x : spec_float) :
  valid_binary x = true -> is_finite_SF x = true -> - top < xval x < top.
Proof.
  intros V F. destruct x as [s|s| |s m e]; try discriminate.
  - cbn [xval]. unfold top. pose proof (pow2_pos 2098 ltac:(lia)). lia.
  - pose proof (valid_finite_value _ _ _ V) as Hv.
    cbn [xval]. destruct s; cbn [cond_Zopp]; lia.
Qed.

(** *** Normalisation, addition and subtraction *)

Lemma rounds_to_xval (s : bool) (w : Z) (r : spec_float) :
  0 < w -> rounds_to s w r ->
  valid_binary r = true /\ is_nan_SF r = false
  /\ xval r = cond_Zopp s (Z.min top w).
Proof.
  intros Hw [V [[-> Htop]|(m & e & -> & Hv & Hlt)]].
  - split; [exact V|]. split; [reflexivity|]. cbn [xval]. f_equal. lia.
  - split; [exact V|]. split; [reflexivity|]. cbn [xval]. rewrite Hv. f_equal. lia.
Qed.

Lemma binary_normalize_spec (M e : Z) (sz : bool) :
  -1074 <= e ->
  valid_binary (binary_normalize prec emax M e sz) = true
  /\ is_nan_SF (binary_normalize prec emax M e sz) = false
  /\ xval (binary_normalize prec emax M e sz)
     = ovf (sRN (M * 2 ^ (e + unit_exp))).
Proof.
  intros He.
  assert (Htop : 0 < top) by (unfold top; apply pow2_pos; lia).
  pose proof (pow2_pos (e + unit_exp) ltac:(unfold unit_exp; lia)) as H2.
  destruct M as [|p|p]; cbn [binary_normalize].
  - split; [reflexivity|]. split; [reflexivity|]. rewrite Z.mul_0_l. reflexivity.
  - pose proof (binary_round_spec false p e He) as Hr.
    assert (Hw : 0 < RN (Z.pos p * 2 ^ (e + unit_exp))) by (apply RN_pos; lia).
    destruct (rounds_to_xval _ _ _ Hw Hr) as (V & N & X).
    split; [exact V|]. split; [exact N|].
    rewrite X. cbn [cond_Zopp]. unfold sRN.
    destruct (Z.ltb_spec (Z.pos p * 2 ^ (e + unit_exp)) 0); [lia|].
    unfold ovf. lia.
  - pose proof (binary_round_spec true p e He) as Hr.
    assert (Hw : 0 < RN (Z.pos p * 2 ^ (e + unit_exp))) by (apply RN_pos; lia).
    destruct (rounds_to_xval _ _ _ Hw Hr) as (V & N & X).
    split; [exact V|]. split; [exact N|].
    rewrite X. cbn [cond_Zopp].
    replace (Z.neg p * 2 ^ (e + unit_exp)) with (- (Z.pos p * 2 ^ (e + unit_exp)))
      by lia.
    rewrite sRN_opp. unfold sRN.
    destruct (Z.ltb_spec (Z.pos p * 2 ^ (e + unit_exp)) 0); [lia|].
    unfold ovf. lia.
Qed.

Lemma cond_Zopp_mul (s : bool) (a c : Z) :
  cond_Zopp s a * c = cond_Zopp s (a * c).
Proof. destruct s; cbn [cond_Zopp]; lia. Qed.

Lemma aligned_value (m : positive) (e ez : Z) (s : bool) :
  -1074 <= ez -> ez <= e ->
  cond_Zopp s (Z.pos (fst (shl_align m e ez))) * 2 ^ (ez + unit_exp)
  = cond_Zopp s (Z.pos m * 2 ^ (e + unit_exp)).
Proof.
  intros Hez Hle. destruct (shl_align_le m e ez Hle) as (mz & -> & Hmz).
  cbn [fst]. rewrite cond_Zopp_mul, Hmz. f_equal.
  unfold unit_exp. rewrite <- Z.mul_assoc, <- Z.pow_add_r by lia.
  f_equal. f_equal. lia.
Qed.

Lemma exact_result (x : spec_float) :
  valid_binary x = true -> is_finite_SF x = true ->
  xval x = ovf (sRN (xval x)).
Proof.
  intros V F. rewrite sRN_xval by assumption.
  pose proof (xval_bounds x V F). unfold ovf. lia.
Qed.

(** The sum of two finite doubles: the exact sum of the values, rounded to
    53 bits, or an infinity when that is out of range. *)
Lemma SFadd_spec (x y : spec_float) :
  valid_binary x = true -> valid_binary y = true ->
  is_finite_SF x = true -> is_finite_SF y = true ->
  valid_binary (SFadd prec emax x y) = true
  /\ is_nan_SF (SFadd prec emax x y) = false
  /\ xval (SFadd prec emax x y) = ovf (sRN (xval x + xval y)).
Proof.
  intros Vx Vy Fx Fy.
  destruct x as [sx|sx| |sx mx ex]; try discriminate;
  destruct y as [sy|sy| |sy my ey]; try discriminate.
  - destruct sx, sy; (split; [reflexivity|split; reflexivity]).
  - split; [exact Vy|]. split; [reflexivity|]. cbn [SFadd].
    change (xval (S754_zero sx)) with 0. rewrite Z.add_0_l.
    apply exact_result; assumption.
  - split; [exact Vx|]. split; [reflexivity|]. cbn [SFadd].
    change (xval (S754_zero sy)) with 0. rewrite Z.add_0_r.
    apply exact_result; assumption.
  - pose proof (valid_finite_inv _ _ _ Vx) as (Hex & _).
    pose proof (valid_finite_inv _ _ _ Vy) as (Hey & _).
    cbn [SFadd xval].
    rewrite <- (aligned_value mx ex (Z.min ex ey) sx) by lia.
    rewrite <- (aligned_value my ey (Z.min ex ey) sy) by lia.
    rewrite <- Z.mul_add_distr_r.
    apply binary_normalize_spec. lia.
Qed.

Lemma SFsub_add_opp (x y : spec_float) :
  is_finite_SF x = true -> is_finite_SF y = true ->
  SFsub prec emax x y = SFadd prec emax x (SFopp y).
Proof.
  intros Fx Fy.
  destruct x as [sx|sx| |sx mx ex]; try discriminate;
  destruct y as [sy|sy| |sy my ey]; try discriminate; cbn [SFsub SFadd SFopp].
  - destruct sx, sy; reflexivity.
  - reflexivity.
  - reflexivity.
  - f_equal. destruct sy; cbn [negb cond_Zopp]; lia.
Qed.

Lemma SFopp_facts (y : spec_float) :
  valid_binary (SFopp y) = valid_binary y
  /\ is_finite_SF (SFopp y) = is_finite_SF y
  /\ xval (SFopp y) = - xval y.
Proof.
  destruct y as [s|s| |s m e]; cbn [SFopp xval valid_binary is_finite_SF];
    repeat split; destruct s; cbn [negb cond_Zopp]; lia.
Qed.

Lemma SFsub_spec (x y : spec_float) :
  valid_binary x = true -> valid_binary y = true ->
  is_finite_SF x = true -> is_finite_SF y = true ->
  valid_binary (SFsub prec emax x y) = true
  /\ is_nan_SF (SFsub prec emax x y) = false
  /\ xval (SFsub prec emax x y) = ovf (sRN (xval x - xval y)).
Proof.
  intros Vx Vy Fx Fy. rewrite SFsub_add_opp by assumption.
  destruct (SFopp_facts y) as (V & F & X).
  replace (xval x - xval y) with (xval x + xval (SFopp y)) by lia.
  apply SFadd_spec; congruence.
Qed.

Import Float64.

Lemma is_nan_SF_spec (x : float) : is_nan x = is_nan_SF (Prim2SF x).
Proof.
  unfold is_nan. rewrite FloatAxioms.eqb_spec. unfold SFeqb.
  destruct (Prim2SF x) as [s|s| |s m e] eqn:Hx; try reflexivity;
    rewrite SFcompare_xval;
    try rewrite Z.compare_refl; try reflexivity;
    try (rewrite <- Hx; apply Prim2SF_valid).
Qed.

Lemma SFcompare_nan_l (y : spec_float) : SFcompare S754_nan y = None.
Proof. reflexivity. Qed.

Lemma SFcompare_nan_r (x : spec_float) : SFcompare x S754_nan = None.
Proof. destruct x; reflexivity. Qed.

Lemma compare_units (x y : float) :
  is_nan x = false -> is_nan y = false ->
  SFcompare (Prim2SF x) (Prim2SF y) = Some (units x ?= units y).
Proof.
  rewrite !is_nan_SF_spec. intros Nx Ny.
  apply SFcompare_xval; try assumption; apply Prim2SF_valid.
Qed.

Lemma SFcompare_some_not_nan (x y : float) (c : comparison) :
  SFcompare (Prim2SF x) (Prim2SF y) = Some c ->
  is_nan x = false /\ is_nan y = false.
Proof.
  rewrite !is_nan_SF_spec.
  destruct (Prim2SF x), (Prim2SF y); try discriminate; split; reflexivity.
Qed.

Lemma leb_units (x y : float) :
  (x <=? y)%float = true
  <-> is_nan x = false /\ is_nan y = false /\ units x <= units y.
Proof.
  rewrite FloatAxioms.leb_spec. unfold SFleb. split.
  - destruct (SFcompare (Prim2SF x) (Prim2SF y)) as [c|] eqn:Hc; [|discriminate].
    destruct (SFcompare_some_not_nan _ _ _ Hc) as [Nx Ny].
    rewrite compare_units in Hc by assumption. injection Hc as <-.
    intros H. split; [assumption|]. split; [assumption|].
    destruct (Z.compare_spec (units x) (units y)); try discriminate; lia.
  - intros (Nx & Ny & Hle). rewrite compare_units by assumption.
    destruct (Z.compare_spec (units x) (units y)); try reflexivity; lia.
Qed.

Lemma ltb_units (x y : float) :
  (x <? y)%float = true
  <-> is_nan x = false /\ is_nan y = false /\ units x < units y.
Proof.
  rewrite FloatAxioms.ltb_spec. unfold SFltb. split.
  - destruct (SFcompare (Prim2SF x) (Prim2SF y)) as [c|] eqn:Hc; [|discriminate].
    destruct (SFcompare_some_not_nan _ _ _ Hc) as [Nx Ny].
    rewrite compare_units in Hc by assumption. injection Hc as <-.
    intros H. split; [assumption|]. split; [assumption|].
    destruct (Z.compare_spec (units x) (units y)); try discriminate; lia.
  - intros (Nx & Ny & Hle). rewrite compare_units by assumption.
    destruct (Z.compare_spec (units x) (units y)); try reflexivity; lia.
Qed.

Lemma eqb_units (x y : float) :
  (x =? y)%float = true
  <-> is_nan x = false /\ is_nan y = false /\ units x = units y.
Proof.
  rewrite FloatAxioms.eqb_spec. unfold SFeqb. split.
  - destruct (SFcompare (Prim2SF x) (Prim2SF y)) as [c|] eqn:Hc; [|discriminate].
    destruct (SFcompare_some_not_nan _ _ _ Hc) as [Nx Ny].
    rewrite compare_units in Hc by assumption. injection Hc as <-.
    intros H. split; [assumption|]. split; [assumption|].
    destruct (Z.compare_spec (units x) (units y)); try discriminate; lia.
  - intros (Nx & Ny & Hle). rewrite compare_units by assumption.
    destruct (Z.compare_spec (units x) (units y)); try reflexivity; lia.
Qed.

Lemma finite_not_nan (x : float) : finiteb x = true -> is_nan x = false.
Proof.
  rewrite is_nan_SF_spec. unfold finiteb.
  destruct (Prim2SF x); try discriminate; reflexivity.
Qed.

Lemma finite_units (x : float) :
  is_nan x = false -> - top < units x < top -> finiteb x = true.
Proof.
  rewrite is_nan_SF_spec. unfold finiteb, units.
  assert (Htop : 0 < top) by (unfold top; apply pow2_pos; lia).
  destruct (Prim2SF x) as [s|s| |s m e]; try discriminate; try reflexivity.
  destruct s; cbn [xval cond_Zopp]; lia.
Qed.

Lemma units_bounds (x : float) : finiteb x = true -> - top < units x < top.
Proof. intros F. apply xval_bounds; [apply Prim2SF_valid|exact F]. Qed.

(** *** Conversion from integers *)

Lemma of_int64_SF (z : Z) :
  Prim2SF (of_int64 z) = binary_normalize prec emax z 0 false.
Proof.
  unfold of_int64. apply Prim2SF_SF2Prim.
  apply (binary_normalize_spec z 0 false). lia.
Qed.

Lemma of_int64_units (z : Z) :
  is_nan (of_int64 z) = false
  /\ units (of_int64 z) = ovf (sRN (z * scale)).
Proof.
  rewrite is_nan_SF_spec. unfold units. rewrite of_int64_SF.
  destruct (binary_normalize_spec z 0 false ltac:(lia)) as (_ & N & X).
  split; [exact N|]. rewrite X. reflexivity.
Qed.

Lemma RN_small (k : Z) : 0 <= k <= 2 ^ 53 -> RN (k * scale) = k * scale.
Proof.
  intros Hk. unfold scale.
  destruct (Z.eq_dec k 0) as [->|Hk0]; [reflexivity|].
  destruct (Z.eq_dec k (2 ^ 53)) as [->|Hne].
  - change (2 ^ 53 * 2 ^ 1074) with (Z.pos 1 * 2 ^ 1127).
    apply RN_grid; [lia|]. change (digits 1) with 1. lia.
  - destruct k as [|p|p]; try lia.
    apply RN_grid; [lia|].
    destruct (Z_le_gt_dec (digits (Z.pos p)) 53) as [?|Hgt]; [assumption|exfalso].
    pose proof (digits_pos_bounds p) as [Hlo _].
    assert (2 ^ 53 <= 2 ^ (digits (Z.pos p) - 1)) by (apply Z.pow_le_mono_r; lia).
    lia.
Qed.

Lemma scale_pos : 0 < scale.
Proof. unfold scale; apply pow2_pos; lia. Qed.

Lemma sRN_small (k : Z) : exact_int k -> sRN (k * scale) = k * scale.
Proof.
  intros Hk. unfold exact_int in Hk. pose proof scale_pos as H1. unfold sRN.
  destruct (Z.ltb_spec (k * scale) 0) as [Hneg|Hpos].
  - replace (- (k * scale)) with ((- k) * scale) by lia.
    rewrite RN_small by nia. lia.
  - apply RN_small. nia.
Qed.

Lemma small_lt_top (k : Z) : - 2 ^ 64 <= k <= 2 ^ 64 -> - top < k * scale < top.
Proof.
  intros Hk. unfold top, scale.
  replace (2 ^ 2098) with (2 ^ 1024 * 2 ^ 1074)
    by (rewrite <- Z.pow_add_r by lia; reflexivity).
  pose proof (pow2_pos 1074 ltac:(lia)).
  assert (2 ^ 64 < 2 ^ 1024) by (apply Z.pow_lt_mono_r; lia).
  nia.
Qed.

Lemma of_int64_exact (z : Z) :
  exact_int z -> units (of_int64 z) = z * scale /\ finiteb (of_int64 z) = true.
Proof.
  intros Hz. destruct (of_int64_units z) as [N X].
  rewrite sRN_small in X by assumption.
  assert (Hb : - top < z * scale < top).
  { apply small_lt_top. unfold exact_int in Hz.
    assert (2 ^ 53 < 2 ^ 64) by (apply Z.pow_lt_mono_r; lia). lia. }
  assert (X' : units (of_int64 z) = z * scale) by (rewrite X; unfold ovf; lia).
  split; [exact X'|]. apply finite_units; [exact N|]. rewrite X'. exact Hb.
Qed.

(** A capacity that is not zero converts to a double that is not zero. *)
Lemma of_int64_eqb_zero (z : Z) :
  (of_int64 z =? 0)%float = (z =? 0).
Proof.
  destruct (of_int64_units z) as [N X].
  pose proof scale_pos as H1.
  assert (Htop : 0 < top) by (unfold top; apply pow2_pos; lia).
  destruct (Z.eqb_spec z 0) as [->|Hz]; [vm_compute; reflexivity|].
  apply not_true_iff_false. intros H.
  apply eqb_units in H as (_ & _ & H). rewrite X in H.
  change (units 0%float) with 0 in H.
  unfold sRN, ovf in H.
  destruct (Z.ltb_spec (z * scale) 0) as [Hneg|Hpos].
  - pose proof (RN_pos (- (z * scale)) ltac:(lia)). lia.
  - pose proof (RN_pos (z * scale) ltac:(nia)). lia.
Qed.

(** *** Sums and differences *)

Lemma add_units (x y : float) :
  finiteb x = true -> finiteb y = true ->
  is_nan (x + y)%float = false
  /\ units (x + y)%float = ovf (sRN (units x + units y)).
Proof.
  intros Fx Fy. rewrite is_nan_SF_spec. unfold units. rewrite add_spec.
  destruct (SFadd_spec (Prim2SF x) (Prim2SF y)) as (_ & N & X);
    try apply Prim2SF_valid; try assumption.
  split; assumption.
Qed.

Lemma sub_units (x y : float) :
  finiteb x = true -> finiteb y = true ->
  is_nan (x - y)%float = false
  /\ units (x - y)%float = ovf (sRN (units x - units y)).
Proof.
  intros Fx Fy. rewrite is_nan_SF_spec. unfold units. rewrite sub_spec.
  destruct (SFsub_spec (Prim2SF x) (Prim2SF y)) as (_ & N & X);
    try apply Prim2SF_valid; try assumption.
  split; assumption.
Qed.

(** *** Rounding to an integer *)

Lemma rint_mono (a b : Z) : a <= b -> rint a <= rint b.
Proof.
  intros Hab. unfold rint.
  pose proof (pow2_pos 1074 ltac:(lia)) as HD.
  destruct (Z.ltb_spec a 0) as [Ha|Ha]; destruct (Z.ltb_spec b 0) as [Hb|Hb];
    try lia.
  - pose proof (Z.div_le_mono (- b + 2 ^ 1073) (- a + 2 ^ 1073) (2 ^ 1074) HD
                  ltac:(lia)). lia.
  - assert (0 <= (- a + 2 ^ 1073) / 2 ^ 1074) by (apply Z.div_pos; lia).
    assert (0 <= (b + 2 ^ 1073) / 2 ^ 1074) by (apply Z.div_pos; lia).
    lia.
  - apply Z.div_le_mono; lia.
Qed.

Lemma rint_integer (k : Z) : rint (k * scale) = k.
Proof.
  unfold rint, scale. pose proof (pow2_pos 1074 ltac:(lia)) as HD.
  assert (Hh : 2 ^ 1073 / 2 ^ 1074 = 0)
    by (apply Z.div_small; split; [apply Z.lt_le_incl, pow2_pos; lia
                                  |apply Z.pow_lt_mono_r; lia]).
  destruct (Z.ltb_spec (k * 2 ^ 1074) 0) as [Hneg|Hpos].
  - replace (- (k * 2 ^ 1074) + 2 ^ 1073) with ((- k) * 2 ^ 1074 + 2 ^ 1073) by lia.
    rewrite Z.div_add_l by lia. lia.
  - rewrite Z.div_add_l by lia. lia.
Qed.

Lemma rint_magnitude (m : positive) (e : Z) :
  -1074 <= e ->
  (Z.pos m * 2 ^ (e + unit_exp) + 2 ^ 1073) / 2 ^ 1074
  = if 0 <=? e then Z.pos m * 2 ^ e else half_away m e.
Proof.
  intros He. unfold unit_exp, half_away.
  destruct (Z.leb_spec 0 e) as [Hpos|Hneg].
  - rewrite Z.pow_add_r, Z.mul_assoc by lia.
    rewrite Z.div_add_l by (pose proof (pow2_pos 1074 ltac:(lia)); lia).
    rewrite (Z.div_small (2 ^ 1073))
      by (split; [apply Z.lt_le_incl, pow2_pos; lia|apply Z.pow_lt_mono_r; lia]).
    lia.
  - replace (2 ^ 1074) with (2 ^ (e + 1074) * 2 ^ (- e))
      by (rewrite <- Z.pow_add_r by lia; f_equal; lia).
    replace (2 ^ 1073) with (2 ^ (e + 1074) * 2 ^ (- e - 1))
      by (rewrite <- Z.pow_add_r by lia; f_equal; lia).
    replace (Z.pos m * 2 ^ (e + 1074) + 2 ^ (e + 1074) * 2 ^ (- e - 1))
      with (2 ^ (e + 1074) * (Z.pos m + 2 ^ (- e - 1))) by lia.
    apply Z.div_mul_cancel_l;
      [pose proof (pow2_pos (- e) ltac:(lia)); lia
      |pose proof (pow2_pos (e + 1074) ltac:(lia)); lia].
Qed.

Lemma rint_finite (s : bool) (m : positive) (e : Z) :
  -1074 <= e ->
  rint (cond_Zopp s (Z.pos m * 2 ^ (e + unit_exp)))
  = cond_Zopp s (if 0 <=? e then Z.pos m * 2 ^ e else half_away m e).
Proof.
  intros He.
  pose proof (pow2_pos (e + unit_exp) ltac:(unfold unit_exp; lia)) as Hp.
  unfold rint. destruct s; cbn [cond_Zopp].
  - destruct (Z.ltb_spec (- (Z.pos m * 2 ^ (e + unit_exp))) 0); [|lia].
    rewrite Z.opp_involutive, rint_magnitude by assumption. reflexivity.
  - destruct (Z.ltb_spec (Z.pos m * 2 ^ (e + unit_exp)) 0); [lia|].
    apply rint_magnitude; assumption.
Qed.

Lemma half_away_bounds (m : positive) (e : Z) :
  digits (Z.pos m) <= 53 -> e < 0 -> 0 <= half_away m e <= 2 ^ 52.
Proof.
  intros Hd He. unfold half_away.
  pose proof (digits_pos_bounds m) as [_ Hhi].
  assert (2 ^ digits (Z.pos m) <= 2 ^ 53) by (apply Z.pow_le_mono_r; lia).
  pose proof (pow2_pos (- e - 1) ltac:(lia)) as Hk.
  assert (Hk2 : 2 ^ (- e) = 2 * 2 ^ (- e - 1)).
  { replace (- e) with (1 + (- e - 1)) at 1 by lia.
    rewrite Z.pow_add_r by lia. reflexivity. }
  split.
  - apply Z.div_pos; lia.
  - apply Z.lt_succ_r. apply Z.div_lt_upper_bound; [lia|].
    rewrite Hk2. nia.
Qed.

Lemma trunc_units (m : positive) (e k : Z) :
  -1074 <= e ->
  Z.pos m * 2 ^ (e + unit_exp) = k * scale -> trunc m e = k.
Proof.
  intros He H. unfold trunc, unit_exp, scale in *.
  pose proof (pow2_pos 1074 ltac:(lia)) as HD.
  destruct (Z.leb_spec 0 e) as [Hpos|Hneg].
  - rewrite Z.pow_add_r, Z.mul_assoc in H by lia. nia.
  - pose proof (pow2_pos (e + 1074) ltac:(lia)) as Hj.
    pose proof (pow2_pos (- e) ltac:(lia)) as Hk.
    assert (H2 : 2 ^ 1074 = 2 ^ (e + 1074) * 2 ^ (- e))
      by (rewrite <- Z.pow_add_r by lia; f_equal; lia).
    rewrite H2 in H.
    assert (Hm : Z.pos m = k * 2 ^ (- e)) by nia.
    rewrite Hm. apply Z.div_mul. lia.
Qed.

(** [int64(math.Round(x))] on a finite double: the nearest integer, when it
    is an [int64]. *)
Lemma to_int64_Round (x : float) :
  finiteb x = true ->
  to_int64 (Round x)
  = if Int64.in_rangeb (rint (units x)) then rint (units x) else indefinite.
Proof.
  unfold finiteb, units, Round. intros F.
  pose proof (Prim2SF_valid x) as V.
  destruct (Prim2SF x) as [s|s| |s m e] eqn:Hx; try discriminate.
  - unfold to_int64. rewrite Hx. cbn [xval].
    change 0 with (0 * scale) at 2 3. rewrite rint_integer. reflexivity.
  - pose proof (valid_finite_inv _ _ _ V) as (He & Hd & _).
    cbn [xval]. rewrite rint_finite by lia.
    destruct (Z.leb_spec 0 e) as [Hpos|Hneg].
    + unfold to_int64. rewrite Hx. unfold trunc.
      destruct (Z.leb_spec 0 e); [reflexivity|lia].
    + pose proof (half_away_bounds m e Hd Hneg) as Hh.
      destruct (binary_normalize_spec (cond_Zopp s (half_away m e)) 0 s
                  ltac:(lia)) as (Vr & _ & _).
      unfold to_int64. rewrite (Prim2SF_SF2Prim _ Vr).
      destruct (half_away m e) as [|hp|hp] eqn:Hhp; try lia.
      * destruct s; reflexivity.
      * assert (Hbr : binary_normalize prec emax (cond_Zopp s (Z.pos hp)) 0 s
                      = binary_round prec emax s hp 0)
          by (destruct s; reflexivity).
        rewrite Hbr.
        pose proof (binary_round_spec s hp 0 ltac:(lia)) as [_ Hr].
        change (Z.pos hp * 2 ^ (0 + unit_exp)) with (Z.pos hp * scale) in Hr.
        rewrite RN_small in Hr by lia.
        destruct Hr as [[-> Htop]|(m' & e' & Hr & Hv & Hlt)].
        { exfalso. pose proof (small_lt_top (Z.pos hp)) as Hs.
          assert (2 ^ 52 < 2 ^ 64) by (apply Z.pow_lt_mono_r; lia). lia. }
        rewrite Hr. rewrite Hbr, Hr in Vr.
        pose proof (valid_finite_inv _ _ _ Vr) as (He' & _).
        rewrite (trunc_units m' e' (Z.pos hp)) by (assumption || lia).
        reflexivity.
Qed.

(** ** Doubles within the [int64] range *)

Lemma units_min_int64 :
  units (-9223372036854775808)%float = - 2 ^ 63 * scale.
Proof. vm_compute. reflexivity. Qed.

Lemma units_two_63 : units 9223372036854775808%float = 2 ^ 63 * scale.
Proof. vm_compute. reflexivity. Qed.

(** A finite double is a whole number of ones, or smaller than [2^53]. *)
Lemma units_grid (x : float) :
  finiteb x = true ->
  (exists k, units x = k * scale)
  \/ - 2 ^ 53 * scale < units x < 2 ^ 53 * scale.
Proof.
  unfold finiteb, units. intros F. pose proof (Prim2SF_valid x) as V.
  pose proof scale_pos as Hs.
  destruct (Prim2SF x) as [s|s| |s m e]; try discriminate.
  - left. exists 0. reflexivity.
  - pose proof (valid_finite_inv _ _ _ V) as (He & Hd & _).
    destruct (Z_le_gt_dec 0 e) as [Hpos|Hneg].
    + left. exists (cond_Zopp s (Z.pos m * 2 ^ e)).
      cbn [xval]. rewrite cond_Zopp_mul. f_equal.
      unfold unit_exp, scale. rewrite Z.pow_add_r by lia. lia.
    + right. cbn [xval].
      pose proof (digits_pos_bounds m) as [_ Hhi].
      assert (2 ^ digits (Z.pos m) <= 2 ^ 53) by (apply Z.pow_le_mono_r; lia).
      pose proof (pow2_pos (e + unit_exp) ltac:(unfold unit_exp; lia)).
      assert (2 ^ (e + unit_exp) <= scale)
        by (unfold scale, unit_exp; apply Z.pow_le_mono_r; lia).
      assert (Z.pos m * 2 ^ (e + unit_exp) < 2 ^ 53 * scale) by nia.
      destruct s; cbn [cond_Zopp]; lia.
Qed.

Lemma two_63_lt_top : 2 ^ 63 * scale < top.
Proof.
  pose proof (small_lt_top (2 ^ 63)) as H.
  assert (2 ^ 63 < 2 ^ 64) by (apply Z.pow_lt_mono_r; lia). lia.
Qed.

Lemma fits_units (x : float) :
  fits_int64 x = true ->
  finiteb x = true
  /\ - 2 ^ 63 * scale <= units x <= (2 ^ 63 - 1) * scale.
Proof.
  unfold fits_int64. intros H. apply andb_true_iff in H as [Hlo Hhi].
  apply leb_units in Hlo as (_ & N & Hlo).
  apply ltb_units in Hhi as (_ & _ & Hhi).
  rewrite units_min_int64 in Hlo. rewrite units_two_63 in Hhi.
  pose proof two_63_lt_top as Ht. pose proof scale_pos as Hs.
  assert (F : finiteb x = true) by (apply finite_units; [exact N|lia]).
  split; [exact F|]. split; [exact Hlo|].
  destruct (units_grid x F) as [[k Hk]|Hsmall].
  - rewrite Hk in *. assert (k < 2 ^ 63) by nia. nia.
  - assert (2 ^ 53 < 2 ^ 63 - 1) by lia.
    nia.
Qed.

(** [int64(math.Round(x))] is the nearest integer when [x] is a double
    whose value lies within the [int64] range. *)
Lemma score_units (x : float) :
  finiteb x = true ->
  - 2 ^ 63 * scale <= units x <= (2 ^ 63 - 1) * scale ->
  to_int64 (Round x) = rint (units x).
Proof.
  intros F [Hlo Hhi]. rewrite to_int64_Round by exact F.
  pose proof (rint_mono _ _ Hlo) as H1. pose proof (rint_mono _ _ Hhi) as H2.
  rewrite rint_integer in H1, H2.
  unfold Int64.in_rangeb, Int64.min_int, Int64.max_int.
  destruct (Z.leb_spec (- 2 ^ 63) (rint (units x))); [|lia].
  destruct (Z.leb_spec (rint (units x)) (2 ^ 63 - 1)); [reflexivity|lia].
Qed.

Lemma rint_nearest (v : Z) :
  2 * Z.abs (rint v * scale - v) <= scale
  /\ (2 * Z.abs (rint v * scale - v) = scale -> Z.abs v < Z.abs (rint v * scale)).
Proof.
  unfold rint, scale.
  assert (HD : 2 ^ 1074 = 2 * 2 ^ 1073)
    by (change 1074 with (1 + 1073); rewrite Z.pow_add_r by lia; reflexivity).
  pose proof (pow2_pos 1073 ltac:(lia)) as HH.
  rewrite HD. set (H := 2 ^ 1073) in *.
  destruct (Z.ltb_spec v 0) as [Hneg|Hpos].
  - pose proof (Z.div_mod (- v + H) (2 * H) ltac:(lia)) as Hdm.
    pose proof (Z.mod_pos_bound (- v + H) (2 * H) ltac:(lia)) as Hr.
    set (q := (- v + H) / (2 * H)) in *. lia.
  - pose proof (Z.div_mod (v + H) (2 * H) ltac:(lia)) as Hdm.
    pose proof (Z.mod_pos_bound (v + H) (2 * H) ltac:(lia)) as Hr.
    set (q := (v + H) / (2 * H)) in *. lia.
Qed.

(** [math.Round] followed by the conversion gives the integer nearest to the
    double, and on a tie the one further from zero. *)
Lemma Round_nearest (x : float) :
  fits_int64 x = true ->
  2 * Z.abs (to_int64 (Round x) * scale - units x) <= scale
  /\ (2 * Z.abs (to_int64 (Round x) * scale - units x) = scale ->
      Z.abs (units x) < Z.abs (to_int64 (Round x) * scale)).
Proof.
  intros H. destruct (fits_units x H) as [F B].
  rewrite score_units by assumption. apply rint_nearest.
Qed.

(** ** The order of doubles *)

Lemma ltb_not_leb (x y : float) :
  (x <? y)%float = true -> (y <=? x)%float = false.
Proof.
  intros H. apply ltb_units in H as (_ & _ & H).
  apply not_true_iff_false. intros H'.
  apply leb_units in H' as (_ & _ & H'). lia.
Qed.

Lemma not_leb_ltb (x y : float) :
  is_nan x = false -> is_nan y = false ->
  (y <=? x)%float = false -> (x <? y)%float = true.
Proof.
  intros Nx Ny H. apply ltb_units. split; [exact Nx|]. split; [exact Ny|].
  destruct (Z_lt_le_dec (units x) (units y)) as [?|Hle]; [assumption|].
  exfalso. apply not_true_iff_false in H. apply H.
  apply leb_units. auto.
Qed.

(** ** Sums that stay far from the overflow threshold *)

Lemma sRN_pow2 (k : Z) : 0 <= k -> sRN (2 ^ k * scale) = 2 ^ k * scale.
Proof.
  intros Hk. pose proof scale_pos. pose proof (pow2_pos k Hk).
  unfold sRN. destruct (Z.ltb_spec (2 ^ k * scale) 0); [nia|].
  unfold scale. rewrite <- Z.pow_add_r by lia.
  replace (2 ^ (k + 1074)) with (Z.pos 1 * 2 ^ (k + 1074)) by lia.
  apply RN_grid; [lia|]. change (digits 1) with 1. lia.
Qed.

Lemma rounded_bounds (t : Z) :
  - 2 ^ 63 * scale <= t <= 2 ^ 55 * scale ->
  - 2 ^ 63 * scale <= ovf (sRN t) <= 2 ^ 55 * scale.
Proof.
  intros [Hlo Hhi].
  pose proof (sRN_mono _ _ Hlo) as H1. pose proof (sRN_mono _ _ Hhi) as H2.
  replace (- 2 ^ 63 * scale) with (- (2 ^ 63 * scale)) in H1 by lia.
  rewrite sRN_opp, sRN_pow2 in H1 by lia. rewrite sRN_pow2 in H2 by lia.
  pose proof two_63_lt_top. pose proof scale_pos.
  assert (2 ^ 55 < 2 ^ 63) by (apply Z.pow_lt_mono_r; lia).
  unfold ovf. nia.
Qed.

Lemma rounded_mono (a b : Z) : a <= b -> ovf (sRN a) <= ovf (sRN b).
Proof. intros H. apply ovf_mono, sRN_mono, H. Qed.

Lemma of_int64_nonneg (z : Z) :
  0 <= z <= 2 ^ 54 ->
  finiteb (of_int64 z) = true /\ 0 <= units (of_int64 z) <= 2 ^ 54 * scale.
Proof.
  intros Hz. destruct (of_int64_units z) as [N X].
  pose proof scale_pos as Hs.
  assert (H0 : ovf (sRN 0) <= ovf (sRN (z * scale))) by (apply rounded_mono; nia).
  assert (H1 : ovf (sRN (z * scale)) <= ovf (sRN (2 ^ 54 * scale)))
    by (apply rounded_mono; nia).
  rewrite sRN_pow2 in H1 by lia.
  change (ovf (sRN 0)) with 0 in H0.
  pose proof two_63_lt_top.
  assert (2 ^ 54 < 2 ^ 63) by (apply Z.pow_lt_mono_r; lia).
  assert (Hov : ovf (2 ^ 54 * scale) = 2 ^ 54 * scale) by (unfold ovf; nia).
  rewrite Hov in H1. rewrite <- X in H0, H1.
  split; [|lia]. apply finite_units; [exact N|nia].
Qed.

Import powersaving.

(** ** NormalizeScore *)

Lemma normalizeStep_scores (st : normalizeState) (elem : framework.NodeScore) :
  scores (normalizeStep st elem) = scores st.
Proof.
  unfold normalizeStep; simpl.
  destruct (framework.Score elem >? framework.MaxNodeScore); [reflexivity|].
  destruct (framework.Score elem <? framework.MinNodeScore); reflexivity.
Qed.

Lemma normalize_fold_scores (l : list framework.NodeScore) (st : normalizeState) :
  scores (fold_left normalizeStep l st) = scores st.
Proof.
  revert st; induction l as [|elem l IH]; intros st; simpl; [reflexivity|].
  rewrite IH. apply normalizeStep_scores.
Qed.

(** The loop assigns to its loop variable only: the caller's list comes back
    as it went in. *)
Lemma NormalizeScore_scores_unchanged (scores0 : list framework.NodeScore) :
  NormalizeScore scores0 = (scores0, framework.nil_status).
Proof.
  unfold NormalizeScore. rewrite normalize_fold_scores. reflexivity.
Qed.

(** C1, at a list holding one score above [MaxNodeScore]: the call leaves
    the score at 150, where clamping the element would give 100. *)
Theorem NormalizeScore_leaves_score_above_max :
  let scores0 := [ {| framework.Name := "node-1"; framework.Score := 150 |} ] in
  fst (NormalizeScore scores0) = scores0
  /\ map framework.Score (fst (NormalizeScore scores0)) = [150]
  /\ map framework.Score (map clampScore scores0) = [framework.MaxNodeScore].
Proof.
  cbv zeta. rewrite NormalizeScore_scores_unchanged. simpl.
  repeat split; reflexivity.
Qed.

(** ** New *)

Lemma setThresholds_low_le_high (args : pluginConfig.PowerSavingArgs) (g : Globals) :
  hostLowCPUThreshold (setThresholds args g)
  <= hostHighCPUThreshold (setThresholds args g).
Proof.
  unfold setThresholds; simpl.
  repeat case_match; lia.
Qed.

Lemma setThresholds_high_le_max (args : pluginConfig.PowerSavingArgs) (g : Globals) :
  hostHighCPUThreshold (setThresholds args g) <= framework.MaxNodeScore.
Proof.
  unfold setThresholds; simpl.
  destruct (pluginConfig.HighCPUThreshold args >? framework.MaxNodeScore) eqn:E; lia.
Qed.

(** The lower bound holds exactly when the supplied high threshold is not
    below [MinNodeScore]. *)
Lemma setThresholds_min_le_low (args : pluginConfig.PowerSavingArgs) (g : Globals) :
  framework.MinNodeScore <= hostLowCPUThreshold (setThresholds args g)
  <-> framework.MinNodeScore <= pluginConfig.HighCPUThreshold args.
Proof.
  unfold setThresholds, framework.MinNodeScore, framework.MaxNodeScore; simpl.
  repeat case_match; lia.
Qed.

(** Arguments whose high threshold is not below [MinNodeScore] leave
    thresholds that satisfy the invariant of the configuration, and a double
    holds them exactly. *)
Lemma setThresholds_invariant (args : pluginConfig.PowerSavingArgs) (g : Globals) :
  framework.MinNodeScore <= pluginConfig.HighCPUThreshold args ->
  framework.MinNodeScore <= hostLowCPUThreshold (setThresholds args g)
  /\ hostLowCPUThreshold (setThresholds args g)
     <= hostHighCPUThreshold (setThresholds args g)
  /\ hostHighCPUThreshold (setThresholds args g) <= framework.MaxNodeScore
  /\ Float64.exact_int (hostLowCPUThreshold (setThresholds args g))
  /\ Float64.exact_int (hostHighCPUThreshold (setThresholds args g)).
Proof.
  intros H.
  pose proof (proj2 (setThresholds_min_le_low args g) H) as Hmin.
  pose proof (setThresholds_low_le_high args g) as Hle.
  pose proof (setThresholds_high_le_max args g) as Hmax.
  unfold Float64.exact_int, framework.MinNodeScore, framework.MaxNodeScore in *.
  repeat split; lia.
Qed.

(** C2, at arguments whose high threshold is negative: [New] accepts them
    and leaves both thresholds at -5, below [MinNodeScore]. *)
Theorem New_negative_high_threshold_below_min :
  let args := {| pluginConfig.trimaranSpec := {| pluginConfig.WatcherAddress := "" |};
                 pluginConfig.LowCPUThreshold := 3;
                 pluginConfig.HighCPUThreshold := -5 |} in
  forall (collector : trimaran.Collector) (handle : framework.Handle) (g : Globals),
    let r := New (fun _ => inl collector) (runtime.PowerSavingArgsObject args) handle g in
    (exists pl, fst r = inl pl)
    /\ hostLowCPUThreshold (snd r) = -5
    /\ hostHighCPUThreshold (snd r) = -5
    /\ hostLowCPUThreshold (snd r) < framework.MinNodeScore.
Proof.
  intros args collector handle g r. subst r args.
  split; [eexists; reflexivity|].
  cbv. repeat split; reflexivity.
Qed.

(** ** PredictUtilisation *)

(** C6: the CPU limit wins over the request, the request (scaled by
    [requestsMultiplier] and rounded) over the default; the function is
    total, so it produces a value on every container. *)
Theorem PredictUtilisation_precedence (g : Globals) (container : v1.Container) :
  (forall limit,
      v1.Limits (v1.Resources container) !! v1.ResourceCPU = Some limit ->
      PredictUtilisation g container = v1.MilliValue limit)
  /\ (forall request,
      v1.Limits (v1.Resources container) !! v1.ResourceCPU = None ->
      v1.Requests (v1.Resources container) !! v1.ResourceCPU = Some request ->
      PredictUtilisation g container
      = Float64.to_int64
          (Float64.Round
             (Float64.of_int64 (v1.MilliValue request) * requestsMultiplier g)%float))
  /\ (v1.Limits (v1.Resources container) !! v1.ResourceCPU = None ->
      v1.Requests (v1.Resources container) !! v1.ResourceCPU = None ->
      PredictUtilisation g container = requestsMilliCores g).
Proof.
  unfold PredictUtilisation, v1.Cpu.
  repeat split.
  - intros limit ->. reflexivity.
  - intros request -> ->. reflexivity.
  - intros -> ->. reflexivity.
Qed.

(** ** The scan over the node's samples *)

Lemma cpuSample_scanStep (acc : float * bool) (metric : watcher.Metric) :
  Contract.cpuSample metric -> scanStep acc metric = (watcher.Value metric, true).
Proof.
  unfold Contract.cpuSample, scanStep. intros [HT HO].
  apply String.eqb_eq in HT. rewrite HT.
  destruct HO as [HO|HO]; apply String.eqb_eq in HO; rewrite HO;
    [reflexivity | rewrite orb_true_r; reflexivity].
Qed.

Lemma not_cpuSample_scanStep (acc : float * bool) (metric : watcher.Metric) :
  ~ Contract.cpuSample metric -> scanStep acc metric = acc.
Proof.
  unfold Contract.cpuSample, scanStep. intros H.
  destruct (String.eqb (watcher.Type_ metric) watcher.CPU) eqn:HT; [|reflexivity].
  apply String.eqb_eq in HT.
  destruct (String.eqb (watcher.Operator metric) watcher.Average) eqn:HA.
  { apply String.eqb_eq in HA. exfalso. apply H. tauto. }
  destruct (String.eqb (watcher.Operator metric) watcher.Latest) eqn:HL.
  { apply String.eqb_eq in HL. exfalso. apply H. tauto. }
  reflexivity.
Qed.

Lemma scan_no_cpuSample (metrics : list watcher.Metric) (acc : float * bool) :
  Forall (fun metric => ~ Contract.cpuSample metric) metrics ->
  fold_left scanStep metrics acc = acc.
Proof.
  intros H; revert acc.
  induction H as [|metric metrics Hm _ IH]; intros acc; simpl; [reflexivity|].
  rewrite not_cpuSample_scanStep by assumption. apply IH.
Qed.

Lemma scan_last_cpuSample
    (before after : list watcher.Metric) (metric : watcher.Metric) :
  Contract.cpuSample metric ->
  Forall (fun later => ~ Contract.cpuSample later) after ->
  scanMetrics (before ++ metric :: after) = (watcher.Value metric, true).
Proof.
  intros Hm Hafter. unfold scanMetrics.
  rewrite fold_left_app. simpl.
  rewrite cpuSample_scanStep by assumption.
  apply scan_no_cpuSample; assumption.
Qed.

(** C9: with several matching samples the scan ends on the value of the
    last one in list order, whatever precedes it, and the score is computed
    from that value. *)
Theorem Score_uses_last_cpuSample
    (pl : PowerSaving) (g : Globals) (pod : v1.Pod) (nodeName : string)
    (nodeInfo : framework.NodeInfo) (allMetrics : watcher.WatcherMetrics)
    (before after : list watcher.Metric) (metric : watcher.Metric) :
  framework.NodeInfos_Get (handle pl) nodeName = inl nodeInfo ->
  trimaran.GetNodeMetrics (collector pl) nodeName
  = (Some (before ++ metric :: after), allMetrics) ->
  Contract.cpuSample metric ->
  Forall (fun later => ~ Contract.cpuSample later) after ->
  scanMetrics (before ++ metric :: after) = (watcher.Value metric, true)
  /\ Score pl g pod nodeName
     = (if keplerEnabled g then framework.MinNodeScore
        else thresholdScore (hostLowCPUThreshold g) (hostHighCPUThreshold g)
               (reconcile (watcher.Value metric)
                  (Float64.of_int64
                     (v1.MilliValue
                        (v1.Cpu (v1.Capacity
                                   (v1.Status (framework.node nodeInfo))))))
                  (missingCPUUtil g
                     (watcher.End_ (watcher.window allMetrics))
                     (default []
                        (trimaran.ScheduledPodsCache (eventHandler pl)
                         !! nodeName)))),
        framework.NewStatus framework.Success framework.NoReason).
Proof.
  intros Hnode Hmetrics Hm Hafter.
  pose proof (scan_last_cpuSample before after metric Hm Hafter) as Hscan.
  split; [exact Hscan|].
  unfold Score. rewrite Hnode, Hmetrics, Hscan. reflexivity.
Qed.

(** ** Score: the status *)

Lemma scanMetrics_not_found (metrics : list watcher.Metric) :
  Forall (fun metric => ~ Contract.cpuSample metric) metrics ->
  scanMetrics metrics = (0%float, false).
Proof. apply scan_no_cpuSample. Qed.

(** C4: the status is an error exactly when the node lookup fails; a node
    without metrics, or without a matching CPU sample, gets the minimum score
    and the nil status. *)
Theorem Score_error_iff_node_unresolved
    (pl : PowerSaving) (g : Globals) (pod : v1.Pod) (nodeName : string) :
  (framework.IsError (snd (Score pl g pod nodeName)) = true
   <-> exists err, framework.NodeInfos_Get (handle pl) nodeName = inr err)
  /\ (forall nodeInfo allMetrics,
        framework.NodeInfos_Get (handle pl) nodeName = inl nodeInfo ->
        trimaran.GetNodeMetrics (collector pl) nodeName = (None, allMetrics) ->
        Score pl g pod nodeName = (framework.MinNodeScore, framework.nil_status))
  /\ (forall nodeInfo metrics allMetrics,
        framework.NodeInfos_Get (handle pl) nodeName = inl nodeInfo ->
        trimaran.GetNodeMetrics (collector pl) nodeName = (Some metrics, allMetrics) ->
        Forall (fun metric => ~ Contract.cpuSample metric) metrics ->
        Score pl g pod nodeName = (framework.MinNodeScore, framework.nil_status)).
Proof.
  unfold Score. repeat split.
  - destruct (framework.NodeInfos_Get (handle pl) nodeName) as [nodeInfo|err];
      [|intros _; eexists; reflexivity].
    destruct (trimaran.GetNodeMetrics (collector pl) nodeName) as [[metrics|] allMetrics];
      [|discriminate].
    destruct (scanMetrics metrics) as [percent [|]]; discriminate.
  - intros [err ->]. reflexivity.
  - intros nodeInfo allMetrics -> ->. reflexivity.
  - intros nodeInfo metrics allMetrics -> -> Hnone.
    rewrite scanMetrics_not_found by assumption. reflexivity.
Qed.

(** ** The missing utilization *)

Lemma counted_recent (windowEnd timestamp : Z) :
  Int64.in_range (windowEnd - timestamp) ->
  counted windowEnd timestamp = Contract.recent windowEnd timestamp.
Proof.
  intros H. unfold counted, Contract.recent, Int64.sub,
    metricsAgentReportingIntervalSeconds.
  rewrite wrap_in_range by assumption.
  rewrite Z.gtb_ltb. reflexivity.
Qed.

Lemma containers_fold (g : Globals) (containers : list v1.Container) (missing : Z) :
  Int64.wrap
    (fold_left (fun missing container =>
                  Int64.add missing (PredictUtilisation g container))
               containers missing)
  = Int64.wrap
      (missing
       + foldr (fun container acc => PredictUtilisation g container + acc)
               0 containers).
Proof.
  revert missing; induction containers as [|c cs IH]; intros missing; simpl.
  - f_equal; lia.
  - rewrite IH, add_wrap, wrap_add_l. f_equal; lia.
Qed.

Lemma addPod_predictedLoad (g : Globals) (missing : Z) (pod : v1.Pod) :
  addPod g missing pod = Int64.wrap (missing + Contract.predictedLoad g pod).
Proof.
  unfold addPod, Contract.predictedLoad.
  rewrite add_wrap, <- wrap_add_l, containers_fold, wrap_add_l. f_equal. lia.
Qed.

Lemma missing_fold (g : Globals) (windowEnd : Z) (infos : list trimaran.podInfo)
    (missing : Z) :
  Forall (fun info =>
            Int64.in_range
              (windowEnd - trimaran.Unix (trimaran.Timestamp info))) infos ->
  Int64.wrap (fold_left (missingStep g windowEnd) infos missing)
  = Int64.wrap (missing + Contract.missingTotal g windowEnd infos).
Proof.
  intros H; revert missing.
  induction H as [|info infos Hinfo _ IH]; intros missing; simpl.
  - f_equal; lia.
  - rewrite IH. unfold missingStep.
    rewrite counted_recent by assumption.
    destruct (Contract.recent windowEnd (trimaran.Unix (trimaran.Timestamp info))).
    + rewrite addPod_predictedLoad, wrap_add_l. f_equal; lia.
    + f_equal; lia.
Qed.

Lemma missing_fold_in_range (g : Globals) (windowEnd : Z)
    (infos : list trimaran.podInfo) (missing : Z) :
  Int64.in_range missing ->
  Int64.in_range (fold_left (missingStep g windowEnd) infos missing).
Proof.
  revert missing; induction infos as [|info infos IH]; intros missing H; simpl;
    [assumption|].
  apply IH. unfold missingStep.
  destruct (counted windowEnd (trimaran.Unix (trimaran.Timestamp info)));
    [|assumption].
  unfold addPod, Int64.add. apply wrap_range.
Qed.

(** C5: the missing utilization is the [int64] sum, over the records of the
    node, of the predicted load (the predictions of the containers plus the
    CPU overhead) of each record whose timestamp is after the window end, or
    at or before it and less than 60 seconds away, and of nothing for every
    other record; the differences between the window end and the timestamps
    are taken to be [int64]s, as they are for Unix seconds. *)
Theorem missingCPUUtil_counts_recent_records
    (g : Globals) (windowEnd : Z) (infos : list trimaran.podInfo) :
  Forall (fun info =>
            Int64.in_range
              (windowEnd - trimaran.Unix (trimaran.Timestamp info))) infos ->
  missingCPUUtil g windowEnd infos
  = Int64.wrap (Contract.missingTotal g windowEnd infos).
Proof.
  intros H. unfold missingCPUUtil.
  rewrite <- (wrap_in_range (fold_left _ _ _)).
  - rewrite missing_fold by assumption. reflexivity.
  - apply missing_fold_in_range.
    unfold Int64.in_range, Int64.min_int, Int64.max_int; lia.
Qed.

(** ** The threshold policy *)

Lemma thresholdScore_high (l h : Z) (util : float) :
  (of_int64 h <=? util)%float = true ->
  thresholdScore l h util = to_int64 (Round util).
Proof. unfold thresholdScore. intros ->. reflexivity. Qed.

Lemma thresholdScore_low (l h : Z) (util : float) :
  (of_int64 h <=? util)%float = false ->
  (util <=? of_int64 l)%float = true ->
  thresholdScore l h util
  = to_int64 (Round (util + of_int64 (Int64.sub h l))%float).
Proof. unfold thresholdScore. intros -> ->. reflexivity. Qed.

Lemma thresholdScore_mid (l h : Z) (util : float) :
  (of_int64 h <=? util)%float = false ->
  (util <=? of_int64 l)%float = false ->
  thresholdScore l h util = to_int64 (Round (util - of_int64 l)%float).
Proof. unfold thresholdScore. intros -> ->. reflexivity. Qed.

Lemma sub_exact (l h : Z) :
  exact_int l -> exact_int h -> Int64.sub h l = h - l.
Proof.
  unfold exact_int. intros Hl Hh. apply wrap_in_range.
  unfold Int64.in_range, Int64.min_int, Int64.max_int. lia.
Qed.

(** A utilization at or above the high threshold and at or below the low
    one: the thresholds coincide and the utilization equals them. *)
Lemma zones_overlap (l h : Z) (util : float) :
  exact_int l -> exact_int h -> l <= h ->
  (of_int64 h <=? util)%float = true ->
  (util <=? of_int64 l)%float = true ->
  l = h /\ finiteb util = true /\ units util = h * scale.
Proof.
  intros El Eh Hlh Hhigh Hlow.
  apply leb_units in Hhigh as (_ & N & Hhigh).
  apply leb_units in Hlow as (_ & _ & Hlow).
  destruct (of_int64_exact l El) as [Ul _].
  destruct (of_int64_exact h Eh) as [Uh _].
  rewrite Uh in Hhigh. rewrite Ul in Hlow.
  pose proof scale_pos as Hs.
  assert (l = h) by nia. subst l.
  split; [reflexivity|]. split; [|lia].
  apply finite_units; [exact N|].
  pose proof (small_lt_top h) as Ht. unfold exact_int in Eh.
  assert (2 ^ 53 < 2 ^ 64) by (apply Z.pow_lt_mono_r; lia). lia.
Qed.

Lemma add_zero_score (util : float) :
  finiteb util = true ->
  to_int64 (Round (util + of_int64 0)%float) = to_int64 (Round util).
Proof.
  intros F.
  destruct (of_int64_exact 0 ltac:(unfold exact_int; lia)) as [U0 F0].
  destruct (add_units util (of_int64 0) F F0) as [N X].
  rewrite U0, Z.mul_0_l, Z.add_0_r in X.
  pose proof (exact_result (Prim2SF util) (Prim2SF_valid util) F) as He.
  change (xval (Prim2SF util)) with (units util) in He.
  rewrite <- He in X.
  assert (F' : finiteb (util + of_int64 0)%float = true).
  { apply finite_units; [exact N|]. rewrite X. apply units_bounds, F. }
  rewrite !to_int64_Round by assumption. rewrite X. reflexivity.
Qed.

(** The score in the low zone, whichever branch of the code produced it. *)
Lemma thresholdScore_low_zone (l h : Z) (util : float) :
  exact_int l -> exact_int h -> l <= h ->
  (util <=? of_int64 l)%float = true ->
  thresholdScore l h util = to_int64 (Round (util + of_int64 (h - l))%float).
Proof.
  intros El Eh Hlh Hlow.
  destruct (of_int64 h <=? util)%float eqn:Hhigh.
  - destruct (zones_overlap l h util El Eh Hlh Hhigh Hlow) as (-> & F & _).
    rewrite thresholdScore_high by exact Hhigh.
    rewrite Z.sub_diag, add_zero_score by exact F. reflexivity.
  - rewrite thresholdScore_low by assumption.
    rewrite sub_exact by assumption. reflexivity.
Qed.

Lemma thresholdScore_mid_zone (l h : Z) (util : float) :
  ((of_int64 l <? util)%float && (util <? of_int64 h)%float) = true ->
  (of_int64 h <=? util)%float = false
  /\ (util <=? of_int64 l)%float = false
  /\ thresholdScore l h util = to_int64 (Round (util - of_int64 l)%float).
Proof.
  intros H. apply andb_true_iff in H as [Hl Hh].
  apply ltb_not_leb in Hl. apply ltb_not_leb in Hh.
  split; [exact Hh|]. split; [exact Hl|].
  apply thresholdScore_mid; assumption.
Qed.

(** C3: the score is [round(util)] at or above the high threshold,
    [round(util + (highT - lowT))] at or below the low one and
    [round(util - lowT)] strictly between them; a utilization that is a
    number falls in one of the three zones, the middle zone excludes the two
    others, and the high and the low zone meet only where the thresholds
    coincide (there both formulas are the same score); rounding is to the
    nearest integer, halves away from zero. *)
Theorem thresholdScore_three_zones (l h : Z) (util : float) :
  exact_int l -> exact_int h -> l <= h ->
  let high := (of_int64 h <=? util)%float in
  let low := (util <=? of_int64 l)%float in
  let mid := ((of_int64 l <? util)%float && (util <? of_int64 h)%float) in
  (high = true -> thresholdScore l h util = to_int64 (Round util))
  /\ (low = true ->
      thresholdScore l h util
      = to_int64 (Round (util + of_int64 (h - l))%float))
  /\ (mid = true ->
      thresholdScore l h util = to_int64 (Round (util - of_int64 l)%float))
  /\ (is_nan util = false -> high = true \/ low = true \/ mid = true)
  /\ (mid = true -> high = false /\ low = false)
  /\ (high = true -> low = true -> l = h)
  /\ (forall x : float, fits_int64 x = true ->
        2 * Z.abs (to_int64 (Round x) * scale - units x) <= scale
        /\ (2 * Z.abs (to_int64 (Round x) * scale - units x) = scale ->
            Z.abs (units x) < Z.abs (to_int64 (Round x) * scale))).
Proof.
  intros El Eh Hlh high low mid. subst high low mid.
  split; [apply thresholdScore_high|].
  split; [apply thresholdScore_low_zone; assumption|].
  split; [intros H; apply thresholdScore_mid_zone; exact H|].
  split.
  { intros N.
    destruct (of_int64_units h) as [Nh _]. destruct (of_int64_units l) as [Nl _].
    destruct (of_int64 h <=? util)%float eqn:Hhigh; [left; reflexivity|].
    destruct (util <=? of_int64 l)%float eqn:Hlow; [right; left; reflexivity|].
    right; right. apply andb_true_iff.
    split; apply not_leb_ltb; assumption. }
  split.
  { intros H. destruct (thresholdScore_mid_zone l h util H) as (H1 & H2 & _).
    split; assumption. }
  split.
  { intros Hhigh Hlow.
    destruct (zones_overlap l h util El Eh Hlh Hhigh Hlow) as [E _]. exact E. }
  apply Round_nearest.
Qed.

(** ** Monotonicity of the score within a zone *)

Lemma high_zone_mono (u1 u2 : float) :
  fits_int64 u1 = true -> fits_int64 u2 = true ->
  (u1 <=? u2)%float = true ->
  to_int64 (Round u1) <= to_int64 (Round u2).
Proof.
  intros H1 H2 Hle.
  destruct (fits_units u1 H1) as [F1 B1]. destruct (fits_units u2 H2) as [F2 B2].
  apply leb_units in Hle as (_ & _ & Hle).
  rewrite !score_units by assumption. apply rint_mono, Hle.
Qed.

Lemma score_of_rounded (x : float) (t : Z) :
  is_nan x = false -> units x = ovf (sRN t) ->
  - 2 ^ 63 * scale <= t <= 2 ^ 55 * scale ->
  to_int64 (Round x) = rint (ovf (sRN t)).
Proof.
  intros N X Ht. pose proof (rounded_bounds t Ht) as Hb.
  pose proof two_63_lt_top. pose proof scale_pos.
  assert (2 ^ 55 < 2 ^ 63 - 1) by lia.
  rewrite <- X in *.
  apply score_units; [|nia].
  apply finite_units; [exact N|nia].
Qed.

Lemma low_zone_mono (l h : Z) (u1 u2 : float) :
  exact_int l -> exact_int h -> l <= h ->
  fits_int64 u1 = true -> fits_int64 u2 = true ->
  (u1 <=? u2)%float = true ->
  (u1 <=? of_int64 l)%float = true -> (u2 <=? of_int64 l)%float = true ->
  to_int64 (Round (u1 + of_int64 (h - l))%float)
  <= to_int64 (Round (u2 + of_int64 (h - l))%float).
Proof.
  intros El Eh Hlh H1 H2 Hle L1 L2.
  destruct (fits_units u1 H1) as [F1 B1]. destruct (fits_units u2 H2) as [F2 B2].
  apply leb_units in Hle as (_ & _ & Hle).
  apply leb_units in L1 as (_ & _ & L1). apply leb_units in L2 as (_ & _ & L2).
  destruct (of_int64_exact l El) as [Ul _]. rewrite Ul in L1, L2.
  unfold exact_int in El, Eh.
  destruct (of_int64_nonneg (h - l) ltac:(lia)) as [Fc Bc].
  destruct (add_units u1 _ F1 Fc) as [N1 X1].
  destruct (add_units u2 _ F2 Fc) as [N2 X2].
  pose proof scale_pos as Hs.
  assert (2 ^ 53 + 2 ^ 54 <= 2 ^ 55) by lia.
  rewrite (score_of_rounded _ _ N1 X1) by nia.
  rewrite (score_of_rounded _ _ N2 X2) by nia.
  apply rint_mono, rounded_mono. lia.
Qed.

Lemma mid_zone_mono (l h : Z) (u1 u2 : float) :
  exact_int l -> exact_int h ->
  fits_int64 u1 = true -> fits_int64 u2 = true ->
  (u1 <=? u2)%float = true ->
  (of_int64 l <? u1)%float = true -> (u2 <? of_int64 h)%float = true ->
  to_int64 (Round (u1 - of_int64 l)%float)
  <= to_int64 (Round (u2 - of_int64 l)%float).
Proof.
  intros El Eh H1 H2 Hle L1 L2.
  destruct (fits_units u1 H1) as [F1 B1]. destruct (fits_units u2 H2) as [F2 B2].
  apply leb_units in Hle as (_ & _ & Hle).
  apply ltb_units in L1 as (_ & _ & L1). apply ltb_units in L2 as (_ & _ & L2).
  destruct (of_int64_exact l El) as [Ul Fl]. rewrite Ul in L1.
  destruct (of_int64_exact h Eh) as [Uh _]. rewrite Uh in L2.
  unfold exact_int in El, Eh.
  destruct (sub_units u1 _ F1 Fl) as [N1 X1].
  destruct (sub_units u2 _ F2 Fl) as [N2 X2].
  rewrite Ul in X1, X2.
  pose proof scale_pos as Hs.
  assert (2 ^ 53 + 2 ^ 53 <= 2 ^ 55) by lia.
  rewrite (score_of_rounded _ _ N1 X1) by nia.
  rewrite (score_of_rounded _ _ N2 X2) by nia.
  apply rint_mono, rounded_mono. lia.
Qed.

(** C8, as amended: for thresholds with [lowT <= highT] that a double holds
    exactly, two utilizations of the same zone, both within the [int64]
    range, are scored in their order. *)
Theorem thresholdScore_monotone_within_zone (l h : Z) (u1 u2 : float) :
  exact_int l -> exact_int h -> l <= h ->
  fits_int64 u1 = true -> fits_int64 u2 = true ->
  (u1 <=? u2)%float = true ->
  ((of_int64 h <=? u1)%float = true /\ (of_int64 h <=? u2)%float = true)
  \/ ((u1 <=? of_int64 l)%float = true /\ (u2 <=? of_int64 l)%float = true)
  \/ (((of_int64 l <? u1)%float && (u1 <? of_int64 h)%float) = true
      /\ ((of_int64 l <? u2)%float && (u2 <? of_int64 h)%float) = true) ->
  thresholdScore l h u1 <= thresholdScore l h u2.
Proof.
  intros El Eh Hlh H1 H2 Hle [[Z1 Z2]|[[Z1 Z2]|[Z1 Z2]]].
  - rewrite !thresholdScore_high by assumption.
    apply high_zone_mono; assumption.
  - rewrite !thresholdScore_low_zone by assumption.
    apply low_zone_mono; assumption.
  - destruct (thresholdScore_mid_zone l h u1 Z1) as (_ & _ & ->).
    destruct (thresholdScore_mid_zone l h u2 Z2) as (_ & _ & ->).
    apply andb_true_iff in Z1 as [L1 _]. apply andb_true_iff in Z2 as [_ R2].
    apply mid_zone_mono with (h := h); assumption.
Qed.

(** C8, as the claim states it, fails.  With the thresholds 10 and 30, the
    utilizations 100 and 1e19 are both in the high zone and in this order,
    and their scores are 100 and the least [int64]: 1e19 is beyond the
    [int64] range, where the conversion of line 175 yields the least
    [int64].  With the thresholds 2^62 and 2^63 - 1, the utilizations 0 and
    2^62 (the low threshold itself) are both in the low zone, in this order
    and within the [int64] range, and their scores are 2^62 and the least
    [int64]: the sum of line 177 is 2^63. *)
Lemma thresholdScore_not_monotone_beyond_int64 :
  (10 <= 30
   /\ (100 <=? 1e19)%float = true
   /\ (of_int64 30 <=? 100)%float = true
   /\ (of_int64 30 <=? 1e19)%float = true
   /\ thresholdScore 10 30 100 = 100
   /\ thresholdScore 10 30 1e19 = Int64.min_int
   /\ thresholdScore 10 30 1e19 < thresholdScore 10 30 100)
  /\ (2 ^ 62 <= 2 ^ 63 - 1
      /\ (0 <=? of_int64 (2 ^ 62))%float = true
      /\ (of_int64 (2 ^ 63 - 1) <=? 0)%float = false
      /\ (of_int64 (2 ^ 63 - 1) <=? of_int64 (2 ^ 62))%float = false
      /\ (of_int64 (2 ^ 62) <=? of_int64 (2 ^ 62))%float = true
      /\ fits_int64 0 = true
      /\ fits_int64 (of_int64 (2 ^ 62)) = true
      /\ thresholdScore (2 ^ 62) (2 ^ 63 - 1) 0 = 2 ^ 62
      /\ thresholdScore (2 ^ 62) (2 ^ 63 - 1) (of_int64 (2 ^ 62)) = Int64.min_int
      /\ thresholdScore (2 ^ 62) (2 ^ 63 - 1) (of_int64 (2 ^ 62))
         < thresholdScore (2 ^ 62) (2 ^ 63 - 1) 0).
Proof.
  split.
  - split; [lia|].
    do 5 (split; [vm_compute; reflexivity|]). vm_compute; reflexivity.
  - split; [lia|].
    do 8 (split; [vm_compute; reflexivity|]). vm_compute; reflexivity.
Qed.

(** ** The reconciled percentage *)

Lemma reconcile_capacity
    (nodeCPUUtilPercent : float) (capacity missingCPUUtilMillis : Z) :
  (capacity = 0 ->
   reconcile nodeCPUUtilPercent (of_int64 capacity) missingCPUUtilMillis
   = nodeCPUUtilPercent)
  /\ (capacity <> 0 ->
      (of_int64 capacity =? 0)%float = false
      /\ reconcile nodeCPUUtilPercent (of_int64 capacity) missingCPUUtilMillis
         = (100 * (nodeCPUUtilPercent / 100 * of_int64 capacity
                   + of_int64 missingCPUUtilMillis)
            / of_int64 capacity)%float).
Proof.
  unfold reconcile. rewrite of_int64_eqb_zero. split.
  - intros ->. reflexivity.
  - intros Hc. apply Z.eqb_neq in Hc. rewrite Hc. split; reflexivity.
Qed.

(** C7: on a node whose CPU capacity is zero millis, [Score] scores the
    percentage that the telemetry reported, as it is, and divides nothing;
    on any other node the divisor is a double other than zero and the
    percentage scored is [100 * (utilMillis + missingMillis) / capacityMillis]
    with [utilMillis = percent / 100 * capacityMillis]. *)
Theorem Score_zero_capacity_unadjusted
    (pl : PowerSaving) (g : Globals) (pod : v1.Pod) (nodeName : string)
    (nodeInfo : framework.NodeInfo) (allMetrics : watcher.WatcherMetrics)
    (metrics : list watcher.Metric) (percent : float) :
  framework.NodeInfos_Get (handle pl) nodeName = inl nodeInfo ->
  trimaran.GetNodeMetrics (collector pl) nodeName = (Some metrics, allMetrics) ->
  scanMetrics metrics = (percent, true) ->
  keplerEnabled g = false ->
  let capacity :=
    v1.MilliValue (v1.Cpu (v1.Capacity (v1.Status (framework.node nodeInfo)))) in
  let missing :=
    missingCPUUtil g (watcher.End_ (watcher.window allMetrics))
      (default [] (trimaran.ScheduledPodsCache (eventHandler pl) !! nodeName)) in
  let success := framework.NewStatus framework.Success framework.NoReason in
  (capacity = 0 ->
   reconcile percent (of_int64 capacity) missing = percent
   /\ Score pl g pod nodeName
      = (thresholdScore (hostLowCPUThreshold g) (hostHighCPUThreshold g) percent,
         success))
  /\ (capacity <> 0 ->
      (of_int64 capacity =? 0)%float = false
      /\ Score pl g pod nodeName
         = (thresholdScore (hostLowCPUThreshold g) (hostHighCPUThreshold g)
              (100 * (percent / 100 * of_int64 capacity + of_int64 missing)
               / of_int64 capacity)%float,
            success)).
Proof.
  intros Hnode Hmetrics Hscan Hkepler capacity missing success.
  assert (HS : Score pl g pod nodeName
               = (thresholdScore (hostLowCPUThreshold g) (hostHighCPUThreshold g)
                    (reconcile percent (of_int64 capacity) missing),
                  success)).
  { unfold Score. rewrite Hnode, Hmetrics, Hscan, Hkepler. reflexivity. }
  destruct (reconcile_capacity percent capacity missing) as [H0 H1].
  split.
  - intros Hc. rewrite HS, (H0 Hc). split; reflexivity.
  - intros Hc. destruct (H1 Hc) as [Hne Hr]. rewrite HS, Hr.
    split; [exact Hne|reflexivity].
Qed.

(** ** The prediction from a request *)

(** C10: without a limit and with a request, the prediction is the double
    product of the request and [requestsMultiplier], rounded by [math.Round]
    and converted; when the product lies within the [int64] range that is the
    integer nearest to the product, the further from zero on a tie. *)
Theorem PredictUtilisation_request_rounds_half_away
    (g : Globals) (container : v1.Container) (request : v1.Quantity) :
  v1.Limits (v1.Resources container) !! v1.ResourceCPU = None ->
  v1.Requests (v1.Resources container) !! v1.ResourceCPU = Some request ->
  let product :=
    (of_int64 (v1.MilliValue request) * requestsMultiplier g)%float in
  PredictUtilisation g container = to_int64 (Round product)
  /\ (fits_int64 product = true ->
      2 * Z.abs (PredictUtilisation g container * scale - units product) <= scale
      /\ (2 * Z.abs (PredictUtilisation g container * scale - units product)
          = scale ->
          Z.abs (units product) < Z.abs (PredictUtilisation g container * scale))).
Proof.
  intros Hl Hr product.
  assert (E : PredictUtilisation g container = to_int64 (Round product)).
  { unfold PredictUtilisation, v1.Cpu. rewrite Hl, Hr. reflexivity. }
  split; [exact E|]. rewrite E. apply Round_nearest.
Qed.

(** ** The definitions at work *)

(** The scenario of the specification: thresholds 10 and 30. *)
Example scenario_low : thresholdScore 10 30 5 = 25.
Proof. vm_compute. reflexivity. Qed.

Example scenario_boundary : thresholdScore 10 30 30 = 30.
Proof. vm_compute. reflexivity. Qed.

Example scenario_mid : thresholdScore 10 30 20 = 10.
Proof. vm_compute. reflexivity. Qed.

Example scenario_high : thresholdScore 10 30 95 = 95.
Proof. vm_compute. reflexivity. Qed.

Example Round_halves :
  map (fun x => to_int64 (Round x)) [0.5; 1.5; 2.5; (-0.5); (-2.5)]%float
  = [1; 2; 3; -1; -3].
Proof. vm_compute. reflexivity. Qed.

(** The largest double below one half rounds to zero, and a negative double
    that rounds to zero keeps its sign. *)
Example Round_below_half :
  Round 0x1.fffffffffffffp-2 = 0%float /\ Round (-0.25) = (-0)%float.
Proof. split; vm_compute; reflexivity. Qed.

Example Round_special :
  Round infinity = infinity /\ Round neg_infinity = neg_infinity
  /\ is_nan (Round nan) = true.
Proof. repeat split; vm_compute; reflexivity. Qed.

(** The conversion to an integer truncates toward zero. *)
Example to_int64_truncates :
  map to_int64 [2.75; (-2.75); 0.5; (-0); 100]%float = [2; -2; 0; 0; 100].
Proof. vm_compute. reflexivity. Qed.

(** The conversion to a double rounds to the nearest double, ties to even. *)
Example of_int64_rounds :
  of_int64 100 = 100%float
  /\ of_int64 (-7) = (-7)%float
  /\ of_int64 (2 ^ 53 + 1) = 9007199254740992%float
  /\ of_int64 (2 ^ 53 + 3) = 9007199254740996%float
  /\ of_int64 Int64.max_int = 9223372036854775808%float.
Proof. repeat split; vm_compute; reflexivity. Qed.

Example thresholdScore_at_low_threshold : thresholdScore 10 30 10 = 30.
Proof. vm_compute. reflexivity. Qed.

Example New_on_args :
  snd (New (fun _ => inl Examples.collector)
           (runtime.PowerSavingArgsObject Examples.args)
           Examples.handle (initial 1000 0 0))
  = Examples.globals.
Proof. reflexivity. Qed.

(** "node-1": the last CPU sample is 50% of 4000m; the records at 1001 and
    990 add 600m each; 100 * (2000 + 1200) / 4000 = 80. *)
Example Score_node_1 :
  Score Examples.plugin Examples.globals Examples.pod "node-1"
  = (80, framework.NewStatus framework.Success framework.NoReason).
Proof. vm_compute. reflexivity. Qed.

Example Score_unknown_node :
  Score Examples.plugin Examples.globals Examples.pod "node-9"
  = (0, framework.NewStatus framework.Error
          (framework.GettingNodeFromSnapshot "node-9" "nodeinfo not found")).
Proof. vm_compute. reflexivity. Qed.

(** With the multiplier at its zero value a request predicts nothing. *)
Example PredictUtilisation_zero_multiplier :
  PredictUtilisation Examples.globals Examples.requesting = 0.
Proof. vm_compute. reflexivity. Qed.

(** ** The theorems at concrete inputs *)

Lemma thresholdScore_three_zones_witness :
  thresholdScore 10 30 30 = 30
  /\ thresholdScore 10 30 5 = 25
  /\ thresholdScore 10 30 10 = 30
  /\ thresholdScore 10 30 20 = 10.
Proof.
  assert (El : exact_int 10) by (unfold exact_int; lia).
  assert (Eh : exact_int 30) by (unfold exact_int; lia).
  assert (Hlh : 10 <= 30) by lia.
  pose proof (thresholdScore_three_zones 10 30 30 El Eh Hlh) as H30.
  pose proof (thresholdScore_three_zones 10 30 5 El Eh Hlh) as H5.
  pose proof (thresholdScore_three_zones 10 30 10 El Eh Hlh) as H10.
  pose proof (thresholdScore_three_zones 10 30 20 El Eh Hlh) as H20.
  cbv zeta in H30, H5, H10, H20.
  destruct H30 as (H30 & _). destruct H5 as (_ & H5 & _).
  destruct H10 as (_ & H10 & _). destruct H20 as (_ & _ & H20 & _).
  split; [|split; [|split]].
  - rewrite H30 by (vm_compute; reflexivity). vm_compute. reflexivity.
  - rewrite H5 by (vm_compute; reflexivity). vm_compute. reflexivity.
  - rewrite H10 by (vm_compute; reflexivity). vm_compute. reflexivity.
  - rewrite H20 by (vm_compute; reflexivity). vm_compute. reflexivity.
Defined.

Lemma thresholdScore_monotone_within_zone_witness :
  thresholdScore 10 30 40 <= thresholdScore 10 30 95
  /\ thresholdScore 10 30 2 <= thresholdScore 10 30 5
  /\ thresholdScore 10 30 12 <= thresholdScore 10 30 20.
Proof.
  assert (El : exact_int 10) by (unfold exact_int; lia).
  assert (Eh : exact_int 30) by (unfold exact_int; lia).
  assert (Hlh : 10 <= 30) by lia.
  split; [|split].
  - apply (thresholdScore_monotone_within_zone 10 30 40 95 El Eh Hlh);
      try (vm_compute; reflexivity).
    left. split; vm_compute; reflexivity.
  - apply (thresholdScore_monotone_within_zone 10 30 2 5 El Eh Hlh);
      try (vm_compute; reflexivity).
    right; left. split; vm_compute; reflexivity.
  - apply (thresholdScore_monotone_within_zone 10 30 12 20 El Eh Hlh);
      try (vm_compute; reflexivity).
    right; right. split; vm_compute; reflexivity.
Defined.

Lemma Score_zero_capacity_unadjusted_witness :
  Score Examples.plugin Examples.globals Examples.pod "node-0"
  = (50, framework.NewStatus framework.Success framework.NoReason)
  /\ Score Examples.plugin Examples.globals Examples.pod "node-1"
     = (80, framework.NewStatus framework.Success framework.NoReason).
Proof.
  destruct (Score_zero_capacity_unadjusted
              Examples.plugin Examples.globals Examples.pod "node-0"
              (Examples.nodeInfo 0) Examples.snapshot Examples.samples 50)
    as [H0 _]; try reflexivity.
  destruct (Score_zero_capacity_unadjusted
              Examples.plugin Examples.globals Examples.pod "node-1"
              (Examples.nodeInfo 4000) Examples.snapshot Examples.samples 50)
    as [_ H1]; try reflexivity.
  cbv zeta in H0, H1. split.
  - destruct H0 as [_ ->]; [reflexivity|]. vm_compute. reflexivity.
  - destruct H1 as [_ ->]; [vm_compute; intros H; discriminate H|].
    vm_compute. reflexivity.
Defined.

Lemma PredictUtilisation_request_rounds_half_away_witness :
  PredictUtilisation Examples.halved Examples.requesting = 2
  /\ 2 * Z.abs (PredictUtilisation Examples.halved Examples.requesting * scale
                - units 1.5)
     <= scale.
Proof.
  destruct (PredictUtilisation_request_rounds_half_away
              Examples.halved Examples.requesting {| v1.MilliValue := 3 |})
    as [E H].
  - vm_compute; reflexivity.
  - vm_compute; reflexivity.
  - split.
    + rewrite E. vm_compute. reflexivity.
    + apply H. vm_compute; reflexivity.
Defined.

Lemma PredictUtilisation_precedence_witness :
  PredictUtilisation Examples.globals Examples.limited = 500
  /\ PredictUtilisation Examples.globals Examples.requesting
     = to_int64 (Round (of_int64 3 * 0)%float)
  /\ PredictUtilisation Examples.globals Examples.bare = 1000.
Proof.
  split; [|split].
  - apply (proj1 (PredictUtilisation_precedence Examples.globals Examples.limited)
             {| v1.MilliValue := 500 |}).
    vm_compute; reflexivity.
  - apply (proj1 (proj2 (PredictUtilisation_precedence
                           Examples.globals Examples.requesting))
             {| v1.MilliValue := 3 |}); vm_compute; reflexivity.
  - apply (proj2 (proj2 (PredictUtilisation_precedence
                           Examples.globals Examples.bare)));
      vm_compute; reflexivity.
Defined.

Lemma Score_uses_last_cpuSample_witness :
  scanMetrics Examples.samples = (50%float, true)
  /\ Score Examples.plugin Examples.globals Examples.pod "node-1"
     = (80, framework.NewStatus framework.Success framework.NoReason).
Proof.
  destruct (Score_uses_last_cpuSample
              Examples.plugin Examples.globals Examples.pod "node-1"
              (Examples.nodeInfo 4000) Examples.snapshot
              [Examples.sample watcher.CPU watcher.Average 20;
               Examples.sample watcher.Memory watcher.Average 70]
              [Examples.sample watcher.CPU watcher.Std 3]
              (Examples.sample watcher.CPU watcher.Latest 50))
    as [Hscan Hscore].
  - reflexivity.
  - reflexivity.
  - split; [reflexivity|right; reflexivity].
  - constructor; [|constructor].
    intros [_ [H|H]]; discriminate H.
  - split; [exact Hscan|]. rewrite Hscore. vm_compute. reflexivity.
Defined.

Lemma Score_error_iff_node_unresolved_witness :
  framework.IsError
    (snd (Score Examples.plugin Examples.globals Examples.pod "node-9")) = true
  /\ Score Examples.plugin Examples.globals Examples.pod "node-2"
     = (framework.MinNodeScore, framework.nil_status)
  /\ Score Examples.plugin Examples.globals Examples.pod "node-3"
     = (framework.MinNodeScore, framework.nil_status).
Proof.
  split; [|split].
  - apply (proj1 (Score_error_iff_node_unresolved
                    Examples.plugin Examples.globals Examples.pod "node-9")).
    exists "nodeinfo not found". reflexivity.
  - apply (proj1 (proj2 (Score_error_iff_node_unresolved
                           Examples.plugin Examples.globals Examples.pod "node-2"))
             (Examples.nodeInfo 4000) Examples.snapshot); reflexivity.
  - apply (proj2 (proj2 (Score_error_iff_node_unresolved
                           Examples.plugin Examples.globals Examples.pod "node-3"))
             (Examples.nodeInfo 4000)
             [Examples.sample watcher.Memory watcher.Average 70]
             Examples.snapshot); try reflexivity.
    constructor; [|constructor]. intros [H _]. discriminate H.
Defined.

Lemma missingCPUUtil_counts_recent_records_witness :
  missingCPUUtil Examples.globals 1000 Examples.records = 1200
  /\ Contract.missingTotal Examples.globals 1000 Examples.records = 1200.
Proof.
  assert (H : missingCPUUtil Examples.globals 1000 Examples.records
              = Int64.wrap
                  (Contract.missingTotal Examples.globals 1000 Examples.records)).
  { apply missingCPUUtil_counts_recent_records.
    repeat constructor; vm_compute; intros H; discriminate H. }
  split; [rewrite H|]; vm_compute; reflexivity.
Defined.

(** * Further properties of the plugin *)

(** ** NormalizeScore on every list *)

Lemma clampScore_fixed (nodeScore : framework.NodeScore) :
  clampScore nodeScore = nodeScore <-> Derived.inRange nodeScore.
Proof.
  unfold clampScore, Derived.inRange, setScore.
  destruct nodeScore as [name score]. cbn [framework.Score framework.Name].
  destruct (Z.gtb_spec score framework.MaxNodeScore) as [Hgt|Hle].
  - split; [intros H; injection H as H|]; unfold framework.MaxNodeScore,
      framework.MinNodeScore in *; lia.
  - destruct (Z.ltb_spec score framework.MinNodeScore) as [Hlt|Hge].
    + split; [intros H; injection H as H|]; unfold framework.MaxNodeScore,
        framework.MinNodeScore in *; lia.
    + split; [intros _; lia|reflexivity].
Qed.

Lemma map_clampScore_fixed (scores0 : list framework.NodeScore) :
  map clampScore scores0 = scores0 <-> Forall Derived.inRange scores0.
Proof.
  induction scores0 as [|x l IH]; simpl.
  - split; [constructor|reflexivity].
  - split.
    + intros H. injection H as Hx Hl. constructor.
      * apply clampScore_fixed, Hx.
      * apply IH, Hl.
    + intros H. inversion H as [|? ? Hx Hl]; subst.
      f_equal; [apply clampScore_fixed, Hx|apply IH, Hl].
Qed.

(** X1: [NormalizeScore] returns the nil status and leaves every list as it
    was, so running it twice is running it once, and it agrees with the
    element-wise clamp exactly on the lists whose scores are all within
    [[MinNodeScore, MaxNodeScore]] already. *)
Theorem NormalizeScore_changes_no_list (scores0 : list framework.NodeScore) :
  NormalizeScore scores0 = (scores0, framework.nil_status)
  /\ NormalizeScore (fst (NormalizeScore scores0)) = NormalizeScore scores0
  /\ (fst (NormalizeScore scores0) = map clampScore scores0
      <-> Forall Derived.inRange scores0).
Proof.
  rewrite !NormalizeScore_scores_unchanged. cbn [fst].
  rewrite ?NormalizeScore_scores_unchanged.
  split; [reflexivity|]. split; [reflexivity|].
  rewrite <- map_clampScore_fixed. split; intros H; symmetry; exact H.
Qed.

(** ** New on every object *)

(** X2: [New] fails exactly when the object is not a [PowerSavingArgs] or
    the collector cannot be built, and a failing [New] leaves every package
    variable as it was; a successful one keeps the arguments, the handle and
    the collector it built in the plugin and changes no package variable but
    the two thresholds. *)
Theorem New_fails_without_effect
    (NewCollector : pluginConfig.TrimaranSpec -> trimaran.Collector + string)
    (obj : runtime.Object) (handle : framework.Handle) (g : Globals) :
  let r := New NewCollector obj handle g in
  ((exists err, fst r = inr err)
   <-> (exists got, obj = runtime.OtherObject got)
       \/ (exists args err, obj = runtime.PowerSavingArgsObject args
                            /\ NewCollector (pluginConfig.trimaranSpec args)
                               = inr err))
  /\ ((exists err, fst r = inr err) -> snd r = g)
  /\ (forall pl, fst r = inl pl ->
        obj = runtime.PowerSavingArgsObject (powersaving.args pl)
        /\ NewCollector (pluginConfig.trimaranSpec (powersaving.args pl))
           = inl (powersaving.collector pl)
        /\ powersaving.handle pl = handle
        /\ snd r = setThresholds (powersaving.args pl) g
        /\ requestsMilliCores (snd r) = requestsMilliCores g
        /\ requestsMultiplier (snd r) = requestsMultiplier g
        /\ keplerEnabled (snd r) = keplerEnabled g).
Proof.
  cbv zeta. unfold New.
  destruct obj as [args|got].
  - destruct (NewCollector (pluginConfig.trimaranSpec args)) as [c|err] eqn:HC;
      cbn [fst snd].
    + split; [|split].
      * split; [intros [e He]; discriminate He|].
        intros [[got Hg]|(a & e & Ha & He)]; [discriminate Hg|].
        injection Ha as <-. rewrite HC in He. discriminate He.
      * intros [e He]. discriminate He.
      * intros pl Hpl. injection Hpl as <-. cbn.
        repeat split; try reflexivity. exact HC.
    + split; [|split].
      * split; [intros _|intros _; eexists; reflexivity].
        right. exists args, err. split; [reflexivity|exact HC].
      * intros _. reflexivity.
      * intros pl Hpl. discriminate Hpl.
  - cbn [fst snd]. split; [|split].
    + split; [intros _; left; eexists; reflexivity|intros _; eexists; reflexivity].
    + intros _. reflexivity.
    + intros pl Hpl. discriminate Hpl.
Qed.

(** X3: after a successful [New] the low threshold is never above the high
    one and the high one never above [MaxNodeScore], whatever was supplied;
    the low threshold is at least [MinNodeScore] exactly when the supplied
    high threshold is. *)
Theorem New_orders_thresholds
    (NewCollector : pluginConfig.TrimaranSpec -> trimaran.Collector + string)
    (args : pluginConfig.PowerSavingArgs) (handle : framework.Handle)
    (g : Globals) (pl : PowerSaving) (g' : Globals) :
  New NewCollector (runtime.PowerSavingArgsObject args) handle g = (inl pl, g') ->
  hostLowCPUThreshold g' <= hostHighCPUThreshold g'
  /\ hostHighCPUThreshold g' <= framework.MaxNodeScore
  /\ hostHighCPUThreshold g' <= pluginConfig.HighCPUThreshold args
  /\ (framework.MinNodeScore <= hostLowCPUThreshold g'
      <-> framework.MinNodeScore <= pluginConfig.HighCPUThreshold args).
Proof.
  unfold New.
  destruct (NewCollector (pluginConfig.trimaranSpec args)) as [c|err];
    [|discriminate].
  intros H. injection H as _ <-.
  split; [apply setThresholds_low_le_high|].
  split; [apply setThresholds_high_le_max|].
  split; [|apply setThresholds_min_le_low].
  unfold setThresholds; simpl. repeat case_match; lia.
Qed.

(** X4: thresholds that already satisfy
    [MinNodeScore <= low <= high <= MaxNodeScore] are stored as supplied, and
    repairing is idempotent: the thresholds that [New] leaves are left
    unchanged when they are supplied again. *)
Theorem New_keeps_valid_thresholds
    (args : pluginConfig.PowerSavingArgs) (g : Globals) :
  (framework.MinNodeScore <= pluginConfig.LowCPUThreshold args ->
   pluginConfig.LowCPUThreshold args <= pluginConfig.HighCPUThreshold args ->
   pluginConfig.HighCPUThreshold args <= framework.MaxNodeScore ->
   hostLowCPUThreshold (setThresholds args g) = pluginConfig.LowCPUThreshold args
   /\ hostHighCPUThreshold (setThresholds args g)
      = pluginConfig.HighCPUThreshold args)
  /\ (let again :=
        {| pluginConfig.trimaranSpec := pluginConfig.trimaranSpec args;
           pluginConfig.LowCPUThreshold := hostLowCPUThreshold (setThresholds args g);
           pluginConfig.HighCPUThreshold := hostHighCPUThreshold (setThresholds args g) |} in
      setThresholds again (setThresholds args g) = setThresholds args g).
Proof.
  split.
  - intros H1 H2 H3. unfold setThresholds, framework.MinNodeScore,
      framework.MaxNodeScore in *; simpl. repeat case_match; lia.
  - cbv zeta. unfold setThresholds, framework.MinNodeScore,
      framework.MaxNodeScore; simpl.
    f_equal; repeat case_match; lia.
Qed.

(** ** The scan in closed form *)

Lemma scanStep_matches (acc : float * bool) (metric : watcher.Metric) :
  scanStep acc metric
  = if Derived.matches metric then (watcher.Value metric, true) else acc.
Proof.
  unfold scanStep, Derived.matches.
  destruct (String.eqb (watcher.Type_ metric) watcher.CPU); [|reflexivity].
  destruct (String.eqb (watcher.Operator metric) watcher.Average
            || String.eqb (watcher.Operator metric) watcher.Latest); reflexivity.
Qed.

Lemma scan_closed_form (metrics : list watcher.Metric) :
  scanMetrics metrics
  = match last (filter (fun metric => Derived.matches metric = true) metrics) with
    | Some metric => (watcher.Value metric, true)
    | None => (0%float, false)
    end.
Proof.
  unfold scanMetrics.
  induction metrics as [|metric metrics IH] using rev_ind; [reflexivity|].
  rewrite fold_left_app, filter_app. cbn [fold_left].
  rewrite scanStep_matches, IH, filter_cons, filter_nil.
  destruct (decide (Derived.matches metric = true)) as [Hm|Hm].
  - rewrite Hm, last_snoc. reflexivity.
  - apply not_true_is_false in Hm. rewrite Hm, app_nil_r. reflexivity.
Qed.

Lemma scanMetrics_found_iff (metrics : list watcher.Metric) :
  scanMetrics metrics
  = match last (filter (fun metric => Derived.matches metric = true) metrics) with
    | Some metric => (watcher.Value metric, true)
    | None => (0%float, false)
    end
  /\ scanMetrics (filter (fun metric => Derived.matches metric = true) metrics)
     = scanMetrics metrics
  /\ (snd (scanMetrics metrics) = true
      <-> Exists (fun metric => Derived.matches metric = true) metrics).
Proof.
  split; [apply scan_closed_form|]. split.
  - rewrite !scan_closed_form. rewrite list_filter_filter.
    erewrite (list_filter_iff _ (fun metric => Derived.matches metric = true));
      [reflexivity|]. intros x. tauto.
  - rewrite scan_closed_form.
    set (P := fun metric => Derived.matches metric = true).
    rewrite Exists_exists. split.
    + destruct (last (filter P metrics)) as [m|] eqn:Hl; [|discriminate].
      intros _. exists m. apply last_Some_elem_of in Hl.
      apply list_elem_of_filter in Hl. tauto.
    + intros (m & Hin & Hm).
      assert (Hf : m ∈ filter P metrics) by (apply list_elem_of_filter; auto).
      destruct (last (filter P metrics)) as [m'|] eqn:Hl; [reflexivity|].
      apply last_None in Hl. rewrite Hl in Hf. inversion Hf.
Qed.

(** X5: the scan of lines 123-132 returns the value of the last sample of
    type CPU with operator Average or Latest and the flag [true], or 0 and
    [false] when the list holds no such sample; samples of any other type or
    operator can be removed from the list without changing the result. *)
Theorem scanMetrics_is_last_match (metrics : list watcher.Metric) :
  scanMetrics metrics
  = match last (filter (fun metric => Derived.matches metric = true) metrics) with
    | Some metric => (watcher.Value metric, true)
    | None => (0%float, false)
    end
  /\ scanMetrics (filter (fun metric => Derived.matches metric = true) metrics)
     = scanMetrics metrics
  /\ (snd (scanMetrics metrics) = true
      <-> Exists (fun metric => Derived.matches metric = true) metrics).
Proof. apply scanMetrics_found_iff. Qed.

(** ** The three outcomes of Score *)

(** X6: [Score] returns the status [Success] exactly when the node resolves,
    its metrics are not nil and hold a sample of type CPU with operator
    Average or Latest; with any other status (an error or nil) the score is
    [MinNodeScore]. *)
Theorem Score_success_iff_cpu_sample
    (pl : PowerSaving) (g : Globals) (pod : v1.Pod) (nodeName : string) :
  (snd (Score pl g pod nodeName)
   = framework.NewStatus framework.Success framework.NoReason
   <-> exists nodeInfo metrics allMetrics,
         framework.NodeInfos_Get (handle pl) nodeName = inl nodeInfo
         /\ trimaran.GetNodeMetrics (collector pl) nodeName
            = (Some metrics, allMetrics)
         /\ Exists (fun metric => Derived.matches metric = true) metrics)
  /\ (snd (Score pl g pod nodeName)
      <> framework.NewStatus framework.Success framework.NoReason ->
      fst (Score pl g pod nodeName) = framework.MinNodeScore).
Proof.
  unfold Score.
  destruct (framework.NodeInfos_Get (handle pl) nodeName) as [nodeInfo|err].
  2:{ split; [|reflexivity]. split; [discriminate|].
      intros (? & ? & ? & H & _). discriminate H. }
  destruct (trimaran.GetNodeMetrics (collector pl) nodeName)
    as [[metrics|] allMetrics].
  2:{ split; [|reflexivity]. split; [discriminate|].
      intros (? & ? & ? & _ & H & _). discriminate H. }
  pose proof (proj2 (proj2 (scanMetrics_found_iff metrics))) as Hfound.
  destruct (scanMetrics metrics) as [percent [|]]; cbn [negb snd fst] in *.
  - split; [|intros H; exfalso; apply H; reflexivity].
    split; [intros _|reflexivity].
    exists nodeInfo, metrics, allMetrics.
    split; [reflexivity|]. split; [reflexivity|]. apply Hfound. reflexivity.
  - split; [|reflexivity]. split; [discriminate|].
    intros (ni & ms & am & _ & H & Hex). injection H as <- _.
    apply Hfound in Hex. discriminate Hex.
Qed.

(** ** The missing utilization as a sum *)

Lemma missingStep_contribution (g : Globals) (windowEnd : Z) (missing : Z)
    (info : trimaran.podInfo) :
  Int64.wrap (missingStep g windowEnd missing info)
  = Int64.wrap (missing + Derived.contribution g windowEnd info).
Proof.
  unfold missingStep, Derived.contribution.
  destruct (counted windowEnd (trimaran.Unix (trimaran.Timestamp info))).
  - rewrite addPod_predictedLoad. apply wrap_in_range, wrap_range.
  - f_equal; lia.
Qed.

Lemma missing_fold_total (g : Globals) (windowEnd : Z)
    (infos : list trimaran.podInfo) (missing : Z) :
  Int64.wrap (fold_left (missingStep g windowEnd) infos missing)
  = Int64.wrap (missing + Derived.total g windowEnd infos).
Proof.
  revert missing; induction infos as [|info infos IH]; intros missing; simpl.
  - f_equal; lia.
  - rewrite IH, <- wrap_add_l, missingStep_contribution, wrap_add_l.
    f_equal; lia.
Qed.

Lemma missingCPUUtil_total (g : Globals) (windowEnd : Z)
    (infos : list trimaran.podInfo) :
  missingCPUUtil g windowEnd infos
  = Int64.wrap (Derived.total g windowEnd infos).
Proof.
  unfold missingCPUUtil.
  rewrite <- (wrap_in_range (fold_left _ _ _)).
  - rewrite missing_fold_total. reflexivity.
  - apply missing_fold_in_range.
    unfold Int64.in_range, Int64.min_int, Int64.max_int; lia.
Qed.

Lemma total_app (g : Globals) (windowEnd : Z) (a b : list trimaran.podInfo) :
  Derived.total g windowEnd (a ++ b)
  = Derived.total g windowEnd a + Derived.total g windowEnd b.
Proof.
  unfold Derived.total. induction a as [|x a IH]; simpl; [reflexivity|].
  rewrite IH. lia.
Qed.

Lemma total_permutation (g : Globals) (windowEnd : Z)
    (a b : list trimaran.podInfo) :
  a ≡ₚ b -> Derived.total g windowEnd a = Derived.total g windowEnd b.
Proof.
  unfold Derived.total. induction 1; simpl; lia.
Qed.

Lemma wrap_add_r (a b : Z) : Int64.wrap (a + Int64.wrap b) = Int64.wrap (a + b).
Proof. rewrite Z.add_comm, wrap_add_l. f_equal; lia. Qed.

(** X7: the missing utilization of two lists of records one after the other
    is the [int64] sum of their missing utilizations, and an empty list of
    records (a node with no entry in the cache) gives 0. *)
Theorem missingCPUUtil_app (g : Globals) (windowEnd : Z)
    (a b : list trimaran.podInfo) :
  missingCPUUtil g windowEnd (a ++ b)
  = Int64.add (missingCPUUtil g windowEnd a) (missingCPUUtil g windowEnd b)
  /\ missingCPUUtil g windowEnd [] = 0.
Proof.
  split; [|reflexivity].
  rewrite !missingCPUUtil_total, total_app, add_wrap, wrap_add_l, wrap_add_r.
  reflexivity.
Qed.

(** X8: the missing utilization does not depend on the order in which the
    cache holds the records of the node. *)
Theorem missingCPUUtil_permutation (g : Globals) (windowEnd : Z)
    (a b : list trimaran.podInfo) :
  a ≡ₚ b -> missingCPUUtil g windowEnd a = missingCPUUtil g windowEnd b.
Proof.
  intros H. rewrite !missingCPUUtil_total, (total_permutation g windowEnd a b H).
  reflexivity.
Qed.

(** X9: when the difference between the window end and the timestamp is an
    [int64], the two-part guard of lines 150-151 is one comparison: the
    record is counted exactly when its timestamp is later than 60 seconds
    before the window end.  A record at the window end is counted, one 59
    seconds before it too, one 60 seconds before it is not. *)
Theorem counted_iff_within_interval (windowEnd timestamp : Z) :
  Int64.in_range (windowEnd - timestamp) ->
  (counted windowEnd timestamp = true
   <-> windowEnd - metricsAgentReportingIntervalSeconds < timestamp)
  /\ counted windowEnd windowEnd = true
  /\ counted windowEnd (windowEnd - 59) = true
  /\ counted windowEnd (windowEnd - 60) = false.
Proof.
  intros H.
  assert (Hc : forall t, Int64.in_range (windowEnd - t) ->
                 counted windowEnd t = (windowEnd - 60 <? t)).
  { intros t Ht. rewrite counted_recent by exact Ht. unfold Contract.recent.
    destruct (Z.ltb_spec windowEnd t); destruct (Z.leb_spec t windowEnd);
      destruct (Z.ltb_spec (windowEnd - t) 60);
      destruct (Z.ltb_spec (windowEnd - 60) t); try reflexivity; lia. }
  assert (Hr : forall k, 0 <= k <= 60 -> Int64.in_range (windowEnd - (windowEnd - k))).
  { intros k Hk. unfold Int64.in_range, Int64.min_int, Int64.max_int. lia. }
  unfold metricsAgentReportingIntervalSeconds.
  split; [rewrite (Hc _ H); apply Z.ltb_lt|].
  replace windowEnd with (windowEnd - 0) at 2 by lia.
  rewrite !Hc by (apply Hr; lia).
  repeat split; [apply Z.ltb_lt; lia|apply Z.ltb_lt; lia|apply Z.ltb_ge; lia].
Qed.

(** ** The scores of the three zones *)

Lemma ovf_small (v : Z) : - top < v < top -> ovf v = v.
Proof. unfold ovf; lia. Qed.

Lemma exact_lt_top (a : Z) : exact_int a -> - top < a * scale < top.
Proof.
  unfold exact_int. intros Ha. apply small_lt_top.
  assert (2 ^ 53 < 2 ^ 64) by (apply Z.pow_lt_mono_r; lia). lia.
Qed.

Lemma rint_rounded_bounds (a b t : Z) :
  exact_int a -> exact_int b -> a * scale <= t <= b * scale ->
  a <= rint (ovf (sRN t)) <= b.
Proof.
  intros Ea Eb [Hlo Hhi].
  pose proof (rounded_mono _ _ Hlo) as H1. pose proof (rounded_mono _ _ Hhi) as H2.
  rewrite (sRN_small a Ea), (ovf_small (a * scale) (exact_lt_top a Ea)) in H1.
  rewrite (sRN_small b Eb), (ovf_small (b * scale) (exact_lt_top b Eb)) in H2.
  apply rint_mono in H1, H2. rewrite rint_integer in H1, H2. lia.
Qed.

Lemma score_of_exact_sum (x : float) (a b t : Z) :
  is_nan x = false -> units x = ovf (sRN t) ->
  exact_int a -> exact_int b -> a * scale <= t <= b * scale ->
  a <= to_int64 (Round x) <= b.
Proof.
  intros N X Ea Eb Ht.
  rewrite (score_of_rounded x t N X).
  - apply rint_rounded_bounds; assumption.
  - unfold exact_int in *. pose proof scale_pos.
    assert (2 ^ 53 <= 2 ^ 55) by lia. assert (- 2 ^ 63 <= - 2 ^ 53) by lia. nia.
Qed.

Lemma units_zero : units 0%float = 0.
Proof. reflexivity. Qed.

Lemma finite_between (x : float) (a b : Z) :
  is_nan x = false -> exact_int a -> exact_int b ->
  a * scale <= units x <= b * scale -> finiteb x = true.
Proof.
  intros N Ea Eb H. apply finite_units; [exact N|].
  pose proof (exact_lt_top a Ea). pose proof (exact_lt_top b Eb). lia.
Qed.

Lemma units_score (x : float) (a b : Z) :
  is_nan x = false -> exact_int a -> exact_int b ->
  a * scale <= units x <= b * scale ->
  a <= to_int64 (Round x) <= b.
Proof.
  intros N Ea Eb H.
  pose proof (finite_between x a b N Ea Eb H) as F.
  apply (score_of_exact_sum x a b (units x)); try assumption.
  apply (exact_result (Prim2SF x) (Prim2SF_valid x) F).
Qed.

(** At or above the high threshold the score is at least the threshold. *)
Lemma high_zone_score (l h : Z) (util : float) :
  exact_int h -> fits_int64 util = true ->
  (of_int64 h <=? util)%float = true ->
  h <= thresholdScore l h util.
Proof.
  intros Eh Hf Hz. rewrite thresholdScore_high by exact Hz.
  destruct (fits_units util Hf) as [F B].
  apply leb_units in Hz as (_ & _ & Hz).
  destruct (of_int64_exact h Eh) as [Uh _]. rewrite Uh in Hz.
  rewrite score_units by assumption.
  apply rint_mono in Hz. rewrite rint_integer in Hz. exact Hz.
Qed.

(** A utilization between zero and the low threshold scores between the gap
    of the thresholds and the high threshold. *)
Lemma low_zone_score (l h : Z) (util : float) :
  exact_int l -> exact_int h -> l <= h ->
  (0 <=? util)%float = true -> (util <=? of_int64 l)%float = true ->
  h - l <= thresholdScore l h util <= h.
Proof.
  intros El Eh Hlh H0 Hz.
  rewrite thresholdScore_low_zone by assumption.
  apply leb_units in H0 as (_ & N & H0). rewrite units_zero in H0.
  apply leb_units in Hz as (_ & _ & Hz).
  destruct (of_int64_exact l El) as [Ul _]. rewrite Ul in Hz.
  pose proof scale_pos as Hs.
  assert (Hl0 : 0 <= l) by nia.
  assert (Eg : exact_int (h - l)) by (unfold exact_int in *; lia).
  assert (E0 : exact_int 0) by (unfold exact_int; lia).
  assert (F : finiteb util = true)
    by (apply (finite_between util 0 l); try assumption; lia).
  destruct (of_int64_exact (h - l) Eg) as [Ug Fg].
  destruct (add_units util _ F Fg) as [Ns X]. rewrite Ug in X.
  apply (score_of_exact_sum _ (h - l) h _ Ns X); try assumption. nia.
Qed.

(** Strictly between the thresholds the score is between zero and the gap
    of the thresholds. *)
Lemma mid_zone_score (l h : Z) (util : float) :
  exact_int l -> exact_int h -> 0 <= l ->
  ((of_int64 l <? util)%float && (util <? of_int64 h)%float) = true ->
  0 <= thresholdScore l h util <= h - l.
Proof.
  intros El Eh Hl0 Hz.
  destruct (thresholdScore_mid_zone l h util Hz) as (_ & _ & ->).
  apply andb_true_iff in Hz as [H1 H2].
  apply ltb_units in H1 as (_ & N & H1). apply ltb_units in H2 as (_ & _ & H2).
  destruct (of_int64_exact l El) as [Ul Fl]. rewrite Ul in H1.
  destruct (of_int64_exact h Eh) as [Uh _]. rewrite Uh in H2.
  pose proof scale_pos as Hs.
  assert (Hlh : l < h) by nia.
  assert (Eg : exact_int (h - l)) by (unfold exact_int in *; lia).
  assert (E0 : exact_int 0) by (unfold exact_int; lia).
  assert (F : finiteb util = true)
    by (apply (finite_between util l h); try assumption; lia).
  destruct (sub_units util _ F Fl) as [Ns X]. rewrite Ul in X.
  apply (score_of_exact_sum _ 0 (h - l) _ Ns X); try assumption. nia.
Qed.

(** X10: the scores of the three zones are bounded as the comment of lines
    169-173 orders them, zone by zone.  For thresholds
    [0 <= lowT <= highT] with [highT] at most 2^53, a utilization at or
    above [highT] and within the [int64] range scores at least [highT]; a
    utilization between 0 and [lowT] scores between [highT - lowT] and
    [highT]; a utilization strictly between the thresholds scores between 0
    and [highT - lowT]. *)
Theorem thresholdScore_ranks_zones (l h : Z) :
  0 <= l -> l <= h -> exact_int h ->
  (forall busy : float,
     (of_int64 h <=? busy)%float = true -> fits_int64 busy = true ->
     h <= thresholdScore l h busy)
  /\ (forall idle : float,
        (0 <=? idle)%float = true -> (idle <=? of_int64 l)%float = true ->
        h - l <= thresholdScore l h idle <= h)
  /\ (forall between : float,
        ((of_int64 l <? between)%float && (between <? of_int64 h)%float) = true ->
        0 <= thresholdScore l h between <= h - l).
Proof.
  intros Hl0 Hlh Eh.
  assert (El : exact_int l) by (unfold exact_int in *; lia).
  split; [|split].
  - intros busy Hb Hf. apply high_zone_score; assumption.
  - intros idle H0 Hi. apply low_zone_score; assumption.
  - intros between Hm. apply mid_zone_score; assumption.
Qed.

(** X11: with thresholds [MinNodeScore <= lowT <= highT <= MaxNodeScore], a
    utilization between 0 and 100 percent gets a score within
    [[MinNodeScore, MaxNodeScore]]. *)
Theorem thresholdScore_within_range (l h : Z) (util : float) :
  framework.MinNodeScore <= l -> l <= h -> h <= framework.MaxNodeScore ->
  (0 <=? util)%float = true -> (util <=? 100)%float = true ->
  framework.MinNodeScore <= thresholdScore l h util <= framework.MaxNodeScore.
Proof.
  unfold framework.MinNodeScore, framework.MaxNodeScore.
  intros Hl Hlh Hh H0 H100.
  assert (El : exact_int l) by (unfold exact_int; lia).
  assert (Eh : exact_int h) by (unfold exact_int; lia).
  assert (E0 : exact_int 0) by (unfold exact_int; lia).
  assert (E100 : exact_int 100) by (unfold exact_int; lia).
  pose proof H0 as H0'. pose proof H100 as H100'.
  apply leb_units in H0' as (_ & N & U0). rewrite units_zero in U0.
  apply leb_units in H100' as (_ & _ & U100).
  change (units 100%float) with (units (of_int64 100)) in U100.
  rewrite (proj1 (of_int64_exact 100 E100)) in U100.
  destruct (of_int64_units h) as [Nh _]. destruct (of_int64_units l) as [Nl _].
  destruct (of_int64 h <=? util)%float eqn:Hhigh.
  - rewrite thresholdScore_high by exact Hhigh.
    apply (units_score util 0 100); try assumption. lia.
  - destruct (util <=? of_int64 l)%float eqn:Hlow.
    + pose proof (low_zone_score l h util El Eh Hlh H0 Hlow). lia.
    + assert (Hm : ((of_int64 l <? util)%float && (util <? of_int64 h)%float) = true).
      { apply andb_true_iff. split; apply not_leb_ltb; assumption. }
      pose proof (mid_zone_score l h util El Eh Hl Hm). lia.
Qed.

(** X12: whatever the low threshold, with a high threshold that is not above
    [MaxNodeScore] (as [New] leaves it), a utilization of
    [MaxNodeScore + 1] percent or more, within the [int64] range, gets a
    score above [MaxNodeScore]: the score is the rounded utilization, and
    no step of [Score] bounds it. *)
Theorem thresholdScore_above_max (l h : Z) (util : float) :
  h <= framework.MaxNodeScore ->
  (of_int64 (framework.MaxNodeScore + 1) <=? util)%float = true ->
  fits_int64 util = true ->
  framework.MaxNodeScore < thresholdScore l h util
  /\ thresholdScore l h util = to_int64 (Round util).
Proof.
  unfold framework.MaxNodeScore. intros Hh Hu Hf.
  assert (E : exact_int (100 + 1)) by (unfold exact_int; lia).
  destruct (fits_units util Hf) as [F B].
  pose proof Hu as Hu'. apply leb_units in Hu' as (_ & N & U).
  rewrite (proj1 (of_int64_exact _ E)) in U.
  destruct (of_int64_units h) as [Nh Xh].
  pose proof scale_pos as Hs.
  assert (Hle : units (of_int64 h) <= (100 + 1) * scale).
  { rewrite Xh.
    rewrite <- (ovf_small ((100 + 1) * scale) (exact_lt_top _ E)).
    rewrite <- (sRN_small _ E). apply rounded_mono. nia. }
  assert (Hhigh : (of_int64 h <=? util)%float = true).
  { apply leb_units. split; [exact Nh|]. split; [exact N|]. lia. }
  rewrite thresholdScore_high by exact Hhigh.
  split; [|reflexivity].
  rewrite score_units by assumption.
  apply rint_mono in U. rewrite rint_integer in U. lia.
Qed.

(** ** Thresholds that coincide *)

Lemma add_zero_any (util : float) :
  to_int64 (Round (util + of_int64 0)%float) = to_int64 (Round util).
Proof.
  destruct (finiteb util) eqn:F; [apply add_zero_score, F|].
  f_equal. f_equal. apply Prim2SF_inj. rewrite add_spec.
  change (Prim2SF (of_int64 0)) with (S754_zero false).
  unfold finiteb in F.
  destruct (Prim2SF util) as [s|s| |s m e]; try discriminate; reflexivity.
Qed.

Lemma sub_nan (x y : float) : is_nan x = true -> (x - y)%float = x.
Proof.
  rewrite is_nan_SF_spec. intros N. apply Prim2SF_inj. rewrite sub_spec.
  destruct (Prim2SF x); try discriminate. reflexivity.
Qed.

(** X13: when the two thresholds are one value there is no middle zone and
    the score is the rounded utilization, [int64(math.Round(util))], for
    every utilization, threshold and all; this is the state in which [New]
    leaves the plugin when the supplied low threshold is above the high
    one. *)
Theorem thresholdScore_equal_thresholds (t : Z) (util : float) :
  thresholdScore t t util = to_int64 (Round util).
Proof.
  unfold thresholdScore.
  destruct (of_int64 t <=? util)%float eqn:Hhigh; [reflexivity|].
  assert (H0 : Int64.sub t t = 0) by (unfold Int64.sub; rewrite Z.sub_diag; reflexivity).
  rewrite H0.
  destruct (util <=? of_int64 t)%float eqn:Hlow; [apply add_zero_any|].
  destruct (is_nan util) eqn:N; [rewrite sub_nan by exact N; reflexivity|].
  exfalso. destruct (of_int64_units t) as [Nt _].
  pose proof (not_leb_ltb _ _ Nt N Hlow) as H1.
  pose proof (not_leb_ltb _ _ N Nt Hhigh) as H2.
  apply ltb_units in H1 as (_ & _ & H1). apply ltb_units in H2 as (_ & _ & H2).
  lia.
Qed.

(** ** The multiplier as the package leaves it *)

Lemma of_int64_finite (z : Z) : Int64.in_range z -> finiteb (of_int64 z) = true.
Proof.
  unfold Int64.in_range, Int64.min_int, Int64.max_int. intros Hz.
  destruct (of_int64_units z) as [N X]. pose proof scale_pos as Hs.
  assert (H1 : ovf (sRN (- (2 ^ 63 * scale))) <= ovf (sRN (z * scale)))
    by (apply rounded_mono; nia).
  assert (H2 : ovf (sRN (z * scale)) <= ovf (sRN (2 ^ 63 * scale)))
    by (apply rounded_mono; nia).
  rewrite sRN_opp in H1. rewrite sRN_pow2 in H1, H2 by lia.
  pose proof two_63_lt_top. unfold ovf in H1, H2.
  apply finite_units; [exact N|]. rewrite X. unfold ovf. lia.
Qed.

Lemma mul_zero_score (x : float) :
  finiteb x = true -> to_int64 (Round (x * 0)%float) = 0.
Proof.
  unfold finiteb. intros F.
  assert (Hz : exists s, Prim2SF (x * 0)%float = S754_zero s).
  { rewrite mul_spec. change (Prim2SF 0%float) with (S754_zero false).
    destruct (Prim2SF x) as [s|s| |s m e]; try discriminate;
      eexists; reflexivity. }
  destruct Hz as [s Hz]. unfold Round. rewrite Hz.
  unfold to_int64. rewrite Hz. reflexivity.
Qed.

(** X14: no statement of the package assigns [requestsMultiplier], so after
    [New] on a freshly loaded package it is still 0, and a container that
    declares a CPU request and no CPU limit is predicted to use 0 millis,
    whatever its request. *)
Theorem PredictUtilisation_request_after_New
    (args : pluginConfig.PowerSavingArgs)
    (DefaultRequestsMilliCores DefaultLowCPUThreshold DefaultHighCPUThreshold : Z)
    (container : v1.Container) (request : v1.Quantity) :
  v1.Limits (v1.Resources container) !! v1.ResourceCPU = None ->
  v1.Requests (v1.Resources container) !! v1.ResourceCPU = Some request ->
  Int64.in_range (v1.MilliValue request) ->
  PredictUtilisation
    (Derived.afterNew args DefaultRequestsMilliCores DefaultLowCPUThreshold
                      DefaultHighCPUThreshold)
    container
  = 0.
Proof.
  intros Hl Hr Hin. unfold PredictUtilisation, v1.Cpu. rewrite Hl, Hr.
  change (requestsMultiplier (Derived.afterNew _ _ _ _)) with 0%float.
  apply mul_zero_score, of_int64_finite, Hin.
Qed.

(** ** What Score reads *)

(** X15: [Score] reads the node lister, the collector and, of the cache of
    scheduled pods, the records of the node it scores, whose order does
    not matter; it reads neither the pod it is asked about nor the stored
    arguments nor the records of any other node.  Two plugins that agree on
    these give the same score and status, for any two pods. *)
Theorem Score_reads_own_node_records
    (pl pl' : PowerSaving) (g : Globals) (pod pod' : v1.Pod)
    (nodeName : string) :
  handle pl = handle pl' ->
  collector pl = collector pl' ->
  default [] (trimaran.ScheduledPodsCache (eventHandler pl) !! nodeName)
  ≡ₚ default [] (trimaran.ScheduledPodsCache (eventHandler pl') !! nodeName) ->
  Score pl g pod nodeName = Score pl' g pod' nodeName.
Proof.
  intros Hh Hc Hp. unfold Score. rewrite Hh, Hc.
  destruct (framework.NodeInfos_Get (handle pl') nodeName) as [nodeInfo|err];
    [|reflexivity].
  destruct (trimaran.GetNodeMetrics (collector pl') nodeName)
    as [[metrics|] allMetrics]; [|reflexivity].
  destruct (scanMetrics metrics) as [percent found].
  destruct (negb found); [reflexivity|].
  rewrite !missingCPUUtil_total, (total_permutation _ _ _ _ Hp). reflexivity.
Qed.

(** ** The further properties at concrete inputs *)

Lemma New_fails_without_effect_witness :
  New Cases.NewCollector (runtime.OtherObject "*v1.Pod") Examples.handle
      Examples.globals
  = (inr (WantPowerSavingArgs "*v1.Pod"), Examples.globals)
  /\ snd (New Cases.failing (runtime.PowerSavingArgsObject Examples.args)
              Examples.handle Examples.globals)
     = Examples.globals.
Proof.
  split; [reflexivity|].
  apply (proj1 (proj2 (New_fails_without_effect
                         Cases.failing
                         (runtime.PowerSavingArgsObject Examples.args)
                         Examples.handle Examples.globals))).
  exists (CollectorError "invalid watcher address"). reflexivity.
Defined.

Lemma New_orders_thresholds_witness :
  snd (New Cases.NewCollector (runtime.PowerSavingArgsObject Cases.swapped)
           Examples.handle (initial 1000 0 0))
  = Cases.repaired
  /\ hostLowCPUThreshold Cases.repaired <= hostHighCPUThreshold Cases.repaired
  /\ hostHighCPUThreshold Cases.repaired <= framework.MaxNodeScore
  /\ hostHighCPUThreshold Cases.repaired
     <= pluginConfig.HighCPUThreshold Cases.swapped
  /\ (framework.MinNodeScore <= hostLowCPUThreshold Cases.repaired
      <-> framework.MinNodeScore <= pluginConfig.HighCPUThreshold Cases.swapped).
Proof.
  split; [reflexivity|].
  apply (New_orders_thresholds
           Cases.NewCollector Cases.swapped Examples.handle (initial 1000 0 0)
           {| powersaving.handle := Examples.handle;
              eventHandler := trimaran.New;
              powersaving.collector := Examples.collector;
              powersaving.args := Cases.swapped |}).
  reflexivity.
Defined.

Lemma New_keeps_valid_thresholds_witness :
  hostLowCPUThreshold (setThresholds Examples.args (initial 1000 0 0)) = 10
  /\ hostHighCPUThreshold (setThresholds Examples.args (initial 1000 0 0)) = 30.
Proof.
  apply (proj1 (New_keeps_valid_thresholds Examples.args (initial 1000 0 0)));
    vm_compute; intros H; discriminate H.
Defined.

Lemma missingCPUUtil_permutation_witness :
  missingCPUUtil Examples.globals 1000
    [Examples.record 100; Examples.record 990; Examples.record 1001]
  = missingCPUUtil Examples.globals 1000 Examples.records.
Proof.
  apply missingCPUUtil_permutation.
  unfold Examples.records. symmetry.
  apply (Permutation_rev [Examples.record 1001; Examples.record 990;
                          Examples.record 100]).
Defined.

Lemma counted_iff_within_interval_witness :
  counted 1000 990 = true <-> 1000 - metricsAgentReportingIntervalSeconds < 990.
Proof.
  apply (counted_iff_within_interval 1000 990).
  unfold Int64.in_range, Int64.min_int, Int64.max_int. lia.
Defined.

Lemma thresholdScore_ranks_zones_witness :
  30 <= thresholdScore 10 30 40
  /\ 30 - 10 <= thresholdScore 10 30 5 <= 30
  /\ 0 <= thresholdScore 10 30 20 <= 30 - 10
  /\ 100 <= thresholdScore 100 100 150
  /\ 100 - 100 <= thresholdScore 100 100 60 <= 100.
Proof.
  assert (H1 : 0 <= 10) by lia.
  assert (H2 : 10 <= 30) by lia.
  assert (H3 : exact_int 30) by (unfold exact_int; lia).
  assert (H4 : 0 <= 100) by lia.
  assert (H5 : 100 <= 100) by lia.
  assert (H6 : exact_int 100) by (unfold exact_int; lia).
  destruct (thresholdScore_ranks_zones 10 30 H1 H2 H3) as (Hhigh & Hlow & Hmid).
  destruct (thresholdScore_ranks_zones 100 100 H4 H5 H6) as (Hhigh' & Hlow' & _).
  split; [apply Hhigh; vm_compute; reflexivity|].
  split; [apply Hlow; vm_compute; reflexivity|].
  split; [apply Hmid; vm_compute; reflexivity|].
  split; [apply Hhigh'; vm_compute; reflexivity|].
  apply Hlow'; vm_compute; reflexivity.
Defined.

Lemma thresholdScore_within_range_witness :
  framework.MinNodeScore <= thresholdScore 10 30 99.5 <= framework.MaxNodeScore.
Proof.
  apply (thresholdScore_within_range 10 30 99.5);
    try (unfold framework.MinNodeScore, framework.MaxNodeScore; lia);
    vm_compute; reflexivity.
Defined.

Lemma thresholdScore_above_max_witness :
  framework.MaxNodeScore < thresholdScore 10 30 150
  /\ thresholdScore 10 30 150 = to_int64 (Round 150).
Proof.
  apply (thresholdScore_above_max 10 30 150);
    try (unfold framework.MaxNodeScore; lia); vm_compute; reflexivity.
Defined.

Lemma PredictUtilisation_request_after_New_witness :
  PredictUtilisation (Derived.afterNew Examples.args 1000 0 0)
                     Examples.requesting
  = 0.
Proof.
  apply (PredictUtilisation_request_after_New
           Examples.args 1000 0 0 Examples.requesting {| v1.MilliValue := 3 |});
    try (vm_compute; reflexivity).
  unfold Int64.in_range, Int64.min_int, Int64.max_int. simpl. lia.
Defined.

Lemma Score_reads_own_node_records_witness :
  Score Cases.reordered Examples.globals Cases.otherPod "node-1"
  = Score Examples.plugin Examples.globals Examples.pod "node-1".
Proof.
  apply Score_reads_own_node_records; try reflexivity.
  symmetry.
  apply (Permutation_rev [Examples.record 1001; Examples.record 990;
                          Examples.record 100]).
Defined.
